(** * pow-shield: proof-of-work edge validation, verified against its specification

    Shallow embedding of the TypeScript/JavaScript sources of pow-shield:
    - [src/utils/crypto.ts]   (CryptoUtils)
    - [src/config.ts]         (validateAndMergeConfig)
    - [cloudflare.js]         (PowCloudflare: the edge validator)
    - [src/server.ts]         (PowServer: the origin verifier)
    - [src/client.ts]         (PowClient: the puzzle solver)

    A JavaScript string is a [string] of 8-bit code units (every string the
    program receives is an HTTP header value or a configuration literal), a
    JavaScript number that the program uses as a count or a time is an
    integer of [Z], and [undefined]/[null] are [None]. *)

From Stdlib Require Import ZArith String Ascii Bool Lia DecimalString DecimalPos List.
Import ListNotations.
Local Open Scope string_scope.
Local Open Scope Z_scope.
Local Open Scope list_scope.

(* ================================================================= *)
(** ** The npm dependency crypto-js

    [CryptoJS.SHA256], [CryptoJS.HmacSHA256] and [CryptoJS.HmacSHA512] are
    library code outside the repository.  They are the functions of
    FIPS 180-4 and RFC 2104 applied to the UTF-8 bytes of their arguments and
    printed in lower-case hexadecimal; the definitions below compute them. *)

Module CryptoJS.

(** Round constants and initial values of SHA-2 are fractional bits of the
    cube and square roots of the first primes; they are computed here. *)
Fixpoint icbrt_loop (fuel : nat) (n lo hi : Z) : Z :=
  match fuel with
  | O => lo
  | S fuel' =>
      if hi <=? lo then lo
      else
        let m := (lo + hi + 1) / 2 in
        if m * m * m <=? n then icbrt_loop fuel' n m hi
        else icbrt_loop fuel' n lo (m - 1)
  end.

Definition icbrt (n : Z) : Z := icbrt_loop 400 n 0 (2 ^ (Z.log2 n / 3 + 1)).

Definition is_prime (p : Z) : bool :=
  (1 <? p) && forallb (fun d => negb (p mod d =? 0))
                      (map Z.of_nat (seq 2 (Z.to_nat (Z.sqrt p) - 1))).

Definition first_primes (n : nat) : list Z :=
  firstn n (filter is_prime (map Z.of_nat (seq 2 420))).

Section Sha2.
(** [w] is the word size in bits (32 for SHA-256, 64 for SHA-512). *)
Variable w : Z.
Variable nrounds : nat.
(** Rotation amounts of the two "big" sigmas, and rotation/shift amounts
    of the two "small" sigmas. *)
Variables (B0 B1 : Z * Z * Z) (s0 s1 : Z * Z * Z).

Definition trunc (x : Z) : Z := x mod 2 ^ w.
Definition rotr (n x : Z) : Z :=
  Z.lor (Z.shiftr x n) (trunc (Z.shiftl x (w - n))).
Definition wadd (x y : Z) : Z := trunc (x + y).

Definition Ch (x y z : Z) : Z :=
  Z.lxor (Z.land x y) (Z.land (Z.lxor x (2 ^ w - 1)) z).
Definition Maj (x y z : Z) : Z :=
  Z.lxor (Z.lxor (Z.land x y) (Z.land x z)) (Z.land y z).

Definition bigsig (r : Z * Z * Z) (x : Z) : Z :=
  let '(a, b, c) := r in Z.lxor (Z.lxor (rotr a x) (rotr b x)) (rotr c x).
Definition smallsig (r : Z * Z * Z) (x : Z) : Z :=
  let '(a, b, c) := r in Z.lxor (Z.lxor (rotr a x) (rotr b x)) (Z.shiftr x c).

Definition Kconst : list Z :=
  map (fun p => trunc (icbrt (p * 2 ^ (3 * w)))) (first_primes nrounds).
Definition Hinit : list Z :=
  map (fun p => trunc (Z.sqrt (p * 2 ^ (2 * w)))) (first_primes 8).

(** Big-endian bytes of a number, [n] bytes wide. *)
Fixpoint be_bytes (n : nat) (x : Z) : list Z :=
  match n with
  | O => []
  | S n' => (x / 256 ^ Z.of_nat n') mod 256 :: be_bytes n' x
  end.

Definition be_word (bs : list Z) : Z :=
  fold_left (fun acc b => acc * 256 + b) bs 0.

Definition wbytes : nat := Z.to_nat (w / 8).
Definition blockbytes : nat := (16 * wbytes)%nat.

(** Padding: a 1 bit, zeros, and the bit length in a field of two words. *)
Definition pad (msg : list Z) : list Z :=
  let len := Z.of_nat (length msg) in
  let bb := Z.of_nat blockbytes in
  let lenfield := Z.of_nat (2 * wbytes) in
  let zeros := (bb - (len + 1 + lenfield) mod bb) mod bb in
  msg ++ [128] ++ repeat 0 (Z.to_nat zeros)
      ++ be_bytes (2 * wbytes) (8 * len).

Fixpoint chunks (fuel n : nat) (l : list Z) : list (list Z) :=
  match fuel with
  | O => []
  | S fuel' =>
      match l with
      | [] => []
      | _ => firstn n l :: chunks fuel' n (skipn n l)
      end
  end.

(** Message schedule: [win] holds the last sixteen words, newest first. *)
Fixpoint schedule (n : nat) (win : list Z) : list Z :=
  match n with
  | O => []
  | S n' =>
      let wt := wadd (wadd (smallsig s1 (nth 1 win 0)) (nth 6 win 0))
                     (wadd (smallsig s0 (nth 14 win 0)) (nth 15 win 0)) in
      wt :: schedule n' (wt :: firstn 15 win)
  end.

Definition round (st : list Z) (kw : Z * Z) : list Z :=
  match st with
  | [a; b; c; d; e; f; g; h] =>
      let t1 := wadd (wadd (wadd h (bigsig B1 e)) (Ch e f g))
                     (wadd (fst kw) (snd kw)) in
      let t2 := wadd (bigsig B0 a) (Maj a b c) in
      [wadd t1 t2; a; b; c; wadd d t1; e; f; g]
  | _ => st
  end.

Definition compress (K : list Z) (hs : list Z) (block : list Z) : list Z :=
  let ws := map be_word (chunks 16 wbytes block) in
  let W := ws ++ schedule (nrounds - 16) (rev ws) in
  let st := fold_left round (combine K W) hs in
  map (fun p => wadd (fst p) (snd p)) (combine hs st).

(** The digest as raw bytes. *)
Definition digest (K H : list Z) (msg : list Z) : list Z :=
  let p := pad msg in
  let hs := fold_left (compress K) (chunks (length p) blockbytes p) H in
  flat_map (be_bytes wbytes) hs.

(** RFC 2104, over the hash above. *)
Definition hmac_bytes (K H : list Z) (key msg : list Z) : list Z :=
  let k0 := if (blockbytes <? length key)%nat then digest K H key else key in
  let k := k0 ++ repeat 0 (blockbytes - length k0) in
  let ipad := map (fun b => Z.lxor b 54) k in
  let opad := map (fun b => Z.lxor b 92) k in
  digest K H (opad ++ digest K H (ipad ++ msg)).
End Sha2.

Definition K256 : list Z := Eval vm_compute in Kconst 32 64.
Definition H256 : list Z := Eval vm_compute in Hinit 32.
Definition K512 : list Z := Eval vm_compute in Kconst 64 80.
Definition H512 : list Z := Eval vm_compute in Hinit 64.

Definition sha256_bytes : list Z -> list Z :=
  digest 32 64 (2, 13, 22) (6, 11, 25) (7, 18, 3) (17, 19, 10) K256 H256.
Definition hmac256_bytes : list Z -> list Z -> list Z :=
  hmac_bytes 32 64 (2, 13, 22) (6, 11, 25) (7, 18, 3) (17, 19, 10) K256 H256.
Definition hmac512_bytes : list Z -> list Z -> list Z :=
  hmac_bytes 64 80 (28, 34, 39) (14, 18, 41) (1, 8, 7) (19, 61, 6) K512 H512.

(** [CryptoJS.enc.Utf8.parse]: code units below 128 are one byte, the
    others two. *)
Definition utf8 (c : ascii) : list Z :=
  let n := Z.of_N (N_of_ascii c) in
  if n <? 128 then [n] else [192 + n / 64; 128 + n mod 64].

Definition bytes_of_string (s : string) : list Z :=
  flat_map utf8 (list_ascii_of_string s).

Definition hexdigit (n : Z) : ascii :=
  nth (Z.to_nat n) (list_ascii_of_string "0123456789abcdef") "0"%char.

(** [wordArray.toString(CryptoJS.enc.Hex)] *)
Definition hex_of_bytes (bs : list Z) : string :=
  string_of_list_ascii
    (flat_map (fun b => [hexdigit (b / 16); hexdigit (b mod 16)]) bs).

Definition SHA256 (data : string) : string :=
  hex_of_bytes (sha256_bytes (bytes_of_string data)).
Definition HmacSHA256 (data key : string) : string :=
  hex_of_bytes (hmac256_bytes (bytes_of_string key) (bytes_of_string data)).
Definition HmacSHA512 (data key : string) : string :=
  hex_of_bytes (hmac512_bytes (bytes_of_string key) (bytes_of_string data)).

End CryptoJS.


(* ================================================================= *)
(** ** JavaScript operations the program relies on *)

Module JS.

(** [!v] for a value that is a string or [undefined]/[null]. *)
Definition falsy (v : option string) : bool :=
  match v with
  | None => true
  | Some EmptyString => true
  | Some (String _ _) => false
  end.

(** [v || d] for a value that is a number or [undefined]. *)
Definition or_number (v : option Z) (d : Z) : Z :=
  match v with
  | Some n => if n =? 0 then d else n
  | None => d
  end.

(** [v || ''] for a value that is a string or [undefined]. *)
Definition or_empty (v : option string) : string :=
  match v with
  | Some s => s
  | None => ""
  end.

Definition code (c : ascii) : Z := Z.of_N (N_of_ascii c).

(** White space skipped by [parseInt]: TAB, LF, VT, FF, CR, SP, NBSP. *)
Definition is_white (c : ascii) : bool :=
  let n := code c in
  ((9 <=? n) && (n <=? 13)) || (n =? 32) || (n =? 160).

Definition digit_value (c : ascii) : option Z :=
  let n := code c in
  if (48 <=? n) && (n <=? 57) then Some (n - 48)
  else if (97 <=? n) && (n <=? 122) then Some (n - 87)
  else if (65 <=? n) && (n <=? 90) then Some (n - 55)
  else None.

Fixpoint skip_white (s : string) : string :=
  match s with
  | String c s' => if is_white c then skip_white s' else s
  | EmptyString => s
  end.

(** Value of the longest prefix of radix-[radix] digits; [acc] is the value
    read so far, [None] while no digit has been read. *)
Fixpoint read_digits (radix : Z) (s : string) (acc : option Z) : option Z :=
  match s with
  | String c s' =>
      match digit_value c with
      | Some d =>
          if d <? radix
          then read_digits radix s'
                 (Some (match acc with Some a => a * radix + d | None => d end))
          else acc
      | None => acc
      end
  | EmptyString => acc
  end.

Definition strip_sign (s : string) : Z * string :=
  match s with
  | String "-" r => (-1, r)
  | String "+" r => (1, r)
  | _ => (1, s)
  end.

Definition strip_0x (radix : Z) (s : string) : string :=
  match s with
  | String "0" (String c r) =>
      if (radix =? 16) && ((c =? "x")%char || (c =? "X")%char) then r else s
  | _ => s
  end.

(** [parseInt(s, radix)] with an explicit radix; [None] is [NaN].  The
    value is exact (no rounding to a double). *)
Definition parseInt (s : string) (radix : Z) : option Z :=
  let '(sign, s1) := strip_sign (skip_white s) in
  match read_digits radix (strip_0x radix s1) None with
  | Some n => Some (sign * n)
  | None => None
  end.

Fixpoint pos_binary (p : positive) (acc : string) : string :=
  match p with
  | xH => String "1" acc
  | xO p' => pos_binary p' (String "0" acc)
  | xI p' => pos_binary p' (String "1" acc)
  end.

(** [n.toString(2)] for a number or [NaN]. *)
Definition toString2 (n : option Z) : string :=
  match n with
  | None => "NaN"
  | Some Z0 => "0"
  | Some (Zpos p) => pos_binary p ""
  | Some (Zneg p) => String "-" (pos_binary p "")
  end.

Fixpoint replicate (n : nat) (c : ascii) : string :=
  match n with
  | O => ""
  | S n' => String c (replicate n' c)
  end.

(** [s.padStart(target, c)] with a one-character pad string. *)
Definition padStart (s : string) (target : nat) (c : ascii) : string :=
  (replicate (target - String.length s) c ++ s)%string.

(** [s.endsWith('*')] *)
Fixpoint endsWithStar (s : string) : bool :=
  match s with
  | EmptyString => false
  | String c EmptyString => (c =? "*")%char
  | String _ s' => endsWithStar s'
  end.

(** [s.slice(0, -1)] *)
Fixpoint dropLast (s : string) : string :=
  match s with
  | EmptyString => ""
  | String _ EmptyString => ""
  | String c s' => String c (dropLast s')
  end.

(** [s.startsWith(p)] *)
Definition startsWith (s p : string) : bool := String.prefix p s.

(** [n.toString()] for an integer. *)
Definition toString10 (n : Z) : string :=
  match n with
  | Z0 => "0"
  | Zpos p => NilEmpty.string_of_uint (Pos.to_uint p)
  | Zneg p => String "-" (NilEmpty.string_of_uint (Pos.to_uint p))
  end.

End JS.

(* ================================================================= *)
(** ** src/utils/crypto.ts *)

Inductive HmacAlgorithm := alg_sha256 | alg_sha512.
Inductive ContextGenerator := gen_userAgent | gen_ipUserAgent | gen_custom.

Module CryptoUtils.

Definition sha256 (data : string) : string := CryptoJS.SHA256 data.

(** The parameter [algorithm] defaults to ['sha256'] when it is
    [undefined]. *)
Definition hmac (data secret : string) (algorithm : option HmacAlgorithm)
  : string :=
  match algorithm with
  | None | Some alg_sha256 => CryptoJS.HmacSHA256 data secret
  | Some alg_sha512 => CryptoJS.HmacSHA512 data secret
  end.

(** [parseInt(hash[i], 16).toString(2).padStart(4, '0')] *)
Definition nibble (c : ascii) : string :=
  JS.padStart (JS.toString2 (JS.parseInt (String c "") 16)) 4 "0".

(** First loop of [hasLeadingZeros]: the binary string of the hash. *)
Fixpoint binary_of (hash : string) : string :=
  match hash with
  | EmptyString => ""
  | String c rest => (nibble c ++ binary_of rest)%string
  end.

(** Second loop of [hasLeadingZeros], at index [i] with [n] iterations to
    go; [binary[i]] is [undefined] past the end of the string. *)
Fixpoint zeros_from (binary : string) (i n : nat) : bool :=
  match n with
  | O => true
  | S n' =>
      match String.get i binary with
      | Some "0"%char => zeros_from binary (S i) n'
      | _ => false
      end
  end.

Definition hasLeadingZeros (hash : string) (difficulty : Z) : bool :=
  zeros_from (binary_of hash) 0 (Z.to_nat difficulty).

Definition generateContext (userAgent : string) (ip : option string)
    (method : option ContextGenerator) : string :=
  match method with
  | Some gen_ipUserAgent => sha256 (JS.or_empty ip ++ ":" ++ userAgent)%string
  | _ => sha256 userAgent
  end.

End CryptoUtils.

(* ================================================================= *)
(** ** src/config.ts *)

Inductive CacheType := cache_memory | cache_durableObject | cache_kv.
Inductive RequestIntegration := req_fetch | req_axios | req_xhr.
Inductive Framework := fw_express | fw_fastify | fw_koa.

Record ClientConfig := {
  maxRetries : option Z;
  requestIntegration : option RequestIntegration
}.

Record CloudflareConfig := {
  rateLimiting : option bool;
  requestsPerMinute : option Z
}.

Record ServerConfig := {
  framework : option Framework;
  strictMode : option bool
}.

(** Every field is optional; [None] is a key that is not set. *)
Record PowShieldConfig := {
  endpoints : option (list string);
  secret : option string;
  difficulty : option Z;
  timestampTolerance : option Z;
  cacheType : option CacheType;
  cacheSize : option Z;
  contextGenerator : option ContextGenerator;
  hmacAlgorithm : option HmacAlgorithm;
  client : option ClientConfig;
  cloudflare : option CloudflareConfig;
  server : option ServerConfig
}.

(** Outcome of code that may [throw new Error(msg)]. *)
Inductive result (A : Type) :=
| Ok (a : A)
| Throw (msg : string).
Arguments Ok {A} a.
Arguments Throw {A} msg.

Inductive ConfigContext := ctx_client | ctx_server | ctx_cloudflare.

Module Config.

Definition DEFAULT_CONFIG : PowShieldConfig := {|
  endpoints := None;
  secret := None;
  difficulty := Some 4;
  timestampTolerance := Some 30;
  cacheType := Some cache_memory;
  cacheSize := Some 10000;
  contextGenerator := Some gen_userAgent;
  hmacAlgorithm := Some alg_sha256;
  client := Some {| maxRetries := Some 5;
                    requestIntegration := Some req_fetch |};
  cloudflare := Some {| rateLimiting := Some true;
                        requestsPerMinute := Some 30 |};
  server := Some {| framework := Some fw_express;
                    strictMode := Some true |}
|}.

(** A key of the user's object overrides the default. *)
Definition over {A} (user dflt : option A) : option A :=
  match user with
  | Some v => Some v
  | None => dflt
  end.

(** [{ ...DEFAULT_CONFIG.client, ...config.client }] and its siblings. *)
Definition spreadClient (d u : ClientConfig) : ClientConfig := {|
  maxRetries := over (maxRetries u) (maxRetries d);
  requestIntegration := over (requestIntegration u) (requestIntegration d)
|}.
Definition spreadCloudflare (d u : CloudflareConfig) : CloudflareConfig := {|
  rateLimiting := over (rateLimiting u) (rateLimiting d);
  requestsPerMinute := over (requestsPerMinute u) (requestsPerMinute d)
|}.
Definition spreadServer (d u : ServerConfig) : ServerConfig := {|
  framework := over (framework u) (framework d);
  strictMode := over (strictMode u) (strictMode d)
|}.

Definition spreadNested {A} (spread : A -> A -> A) (d u : option A)
  : option A :=
  match u, d with
  | Some u', Some d' => Some (spread d' u')
  | Some u', None => Some u'
  | None, _ => d
  end.

Definition merge (config : PowShieldConfig) : PowShieldConfig := {|
  endpoints := over (endpoints config) (endpoints DEFAULT_CONFIG);
  secret := over (secret config) (secret DEFAULT_CONFIG);
  difficulty := over (difficulty config) (difficulty DEFAULT_CONFIG);
  timestampTolerance :=
    over (timestampTolerance config) (timestampTolerance DEFAULT_CONFIG);
  cacheType := over (cacheType config) (cacheType DEFAULT_CONFIG);
  cacheSize := over (cacheSize config) (cacheSize DEFAULT_CONFIG);
  contextGenerator :=
    over (contextGenerator config) (contextGenerator DEFAULT_CONFIG);
  hmacAlgorithm := over (hmacAlgorithm config) (hmacAlgorithm DEFAULT_CONFIG);
  client := spreadNested spreadClient (client DEFAULT_CONFIG) (client config);
  cloudflare :=
    spreadNested spreadCloudflare (cloudflare DEFAULT_CONFIG)
                 (cloudflare config);
  server := spreadNested spreadServer (server DEFAULT_CONFIG) (server config)
|}.

(** [!mergedConfig.endpoints || mergedConfig.endpoints.length === 0] *)
Definition noEndpoints (c : PowShieldConfig) : bool :=
  match endpoints c with
  | None | Some [] => true
  | Some (_ :: _) => false
  end.

Definition needsSecret (context : ConfigContext) : bool :=
  match context with
  | ctx_server | ctx_cloudflare => true
  | ctx_client => false
  end.

Definition validateAndMergeConfig (config : PowShieldConfig)
    (context : ConfigContext) : result PowShieldConfig :=
  let mergedConfig := merge config in
  if noEndpoints mergedConfig
  then Throw "PoW Shield requires at least one endpoint to protect"
  else if needsSecret context && JS.falsy (secret mergedConfig)
  then Throw "PoW Shield requires a shared secret for HMAC generation"
  else Ok mergedConfig.

(** The parameter [context] defaults to ['client']. *)
Definition validateAndMergeConfig_default (config : PowShieldConfig)
  : result PowShieldConfig :=
  validateAndMergeConfig config ctx_client.

End Config.

(** The compiled [config.js] that [cloudflare.js] imports as ['./config']:
    an older build whose function has no [context] parameter and requires
    the secret always. *)
Module ConfigJs.

Definition validateAndMergeConfig (config : PowShieldConfig)
  : result PowShieldConfig :=
  let mergedConfig := Config.merge config in
  if Config.noEndpoints mergedConfig
  then Throw "PoW Shield requires at least one endpoint to protect"
  else if JS.falsy (secret mergedConfig)
  then Throw "PoW Shield requires a shared secret for HMAC generation"
  else Ok mergedConfig.

End ConfigJs.

(* ================================================================= *)
(** ** The npm dependency lru-cache (version 11)

    Library code outside the repository, modelled by its documented
    behaviour with the options the program uses ([max] and [ttl] only):
    - an entry is stale once more than its ttl has passed since it was set;
    - [has] answers [false] for a missing or stale key and changes nothing;
    - [get] deletes a stale entry and answers [undefined], and makes a live
      entry the most recently used one;
    - [set] makes the key the most recently used one, stores the value and
      restarts the entry's age with the given ttl ([noUpdateTTL] is off), and,
      when the key is new and the cache is full, first evicts the least
      recently used entry, stale or not.
    The entries are listed from the most to the least recently used. *)

Module LRUCache.

(** The values this program stores: [true] and numbers. *)
Inductive value :=
| VTrue
| VNum (n : Z).

Record entry := {
  ekey : string;
  evalue : value;
  estart : Z;   (* time of the last [set], in milliseconds *)
  ettl : Z      (* milliseconds *)
}.

Record t := {
  max : Z;
  ttl : Z;
  entries : list entry
}.

Definition with_entries (c : t) (es : list entry) : t :=
  {| max := max c; ttl := ttl c; entries := es |}.

(** [new LRUCache({ max, ttl })]: both must be positive integers. *)
Definition create (max ttl : Z) : result t :=
  if (0 <? max) && (0 <? ttl)
  then Ok {| max := max; ttl := ttl; entries := [] |}
  else Throw "TypeError".

Definition isStale (e : entry) (now : Z) : bool :=
  negb (ettl e =? 0) && (ettl e <? now - estart e).

Fixpoint find (k : string) (es : list entry) : option entry :=
  match es with
  | [] => None
  | e :: es' => if (ekey e =? k)%string then Some e else find k es'
  end.

Fixpoint remove (k : string) (es : list entry) : list entry :=
  match es with
  | [] => []
  | e :: es' => if (ekey e =? k)%string then es' else e :: remove k es'
  end.

Definition has (c : t) (k : string) (now : Z) : bool :=
  match find k (entries c) with
  | Some e => negb (isStale e now)
  | None => false
  end.

Definition get (c : t) (k : string) (now : Z) : option value * t :=
  match find k (entries c) with
  | None => (None, c)
  | Some e =>
      if isStale e now
      then (None, with_entries c (remove k (entries c)))
      else (Some (evalue e), with_entries c (e :: remove k (entries c)))
  end.

(** [set(k, v, { ttl })]; [ttl_opt = None] is a call without options. *)
Definition set (c : t) (k : string) (v : value) (ttl_opt : option Z)
    (now : Z) : t :=
  let e := {| ekey := k; evalue := v; estart := now;
              ettl := match ttl_opt with Some x => x | None => ttl c end |} in
  match find k (entries c) with
  | Some _ => with_entries c (e :: remove k (entries c))
  | None =>
      if Z.of_nat (length (entries c)) =? max c
      then with_entries c (e :: removelast (entries c))
      else with_entries c (e :: entries c)
  end.

End LRUCache.

(* ================================================================= *)
(** ** Requests and responses *)

(** The Fetch API's [Headers]: names are kept in lower case. *)
Module Headers.

Definition t := list (string * string).

Definition lower_char (c : ascii) : ascii :=
  let n := N_of_ascii c in
  if ((65 <=? n) && (n <=? 90))%N then ascii_of_N (n + 32) else c.

Fixpoint lower (s : string) : string :=
  match s with
  | EmptyString => ""
  | String c s' => String (lower_char c) (lower s')
  end.

Fixpoint lookup (name : string) (h : t) : option string :=
  match h with
  | [] => None
  | (n, v) :: h' => if (n =? name)%string then Some v else lookup name h'
  end.

Definition get (h : t) (name : string) : option string :=
  lookup (lower name) h.

Fixpoint replace (name value : string) (h : t) : t :=
  match h with
  | [] => [(name, value)]
  | (n, v) :: h' =>
      if (n =? name)%string then (n, value) :: h'
      else (n, v) :: replace name value h'
  end.

Definition set (h : t) (name value : string) : t :=
  replace (lower name) value h.

End Headers.

(** A Fetch API [Request]; [pathname] is [new URL(request.url).pathname]. *)
Record Request := {
  url : string;
  pathname : string;
  method : string;
  headers : Headers.t;
  body : option string;
  redirect : string
}.

(** [new Response(body, { status })] *)
Record Response := {
  text : string;
  status : Z
}.

(** The three copies of [isProtectedEndpoint] are the same function of the
    merged configuration. *)
Definition matchesEndpoint (endpoint protectedEndpoint : string) : bool :=
  if (endpoint =? protectedEndpoint)%string then true
  else if JS.endsWithStar protectedEndpoint
  then JS.startsWith endpoint (JS.dropLast protectedEndpoint)
  else false.

Definition isProtectedEndpoint (config : PowShieldConfig) (endpoint : string)
  : bool :=
  match endpoints config with
  | None | Some [] => false
  | Some eps => existsb (matchesEndpoint endpoint) eps
  end.

(* ================================================================= *)
(** ** cloudflare.js: the edge validator *)

Module PowCloudflare.

(** An instance: [this.config] and [this.nonceCache]. *)
Record t := {
  config : PowShieldConfig;
  nonceCache : LRUCache.t
}.

Definition with_cache (this : t) (c : LRUCache.t) : t :=
  {| config := config this; nonceCache := c |}.

(** The constructor; ['./config'] of [cloudflare.js] is the compiled
    [config.js]. *)
Definition constructor (cfg : PowShieldConfig) : result t :=
  match ConfigJs.validateAndMergeConfig cfg with
  | Throw msg => Throw msg
  | Ok merged =>
      match LRUCache.create
              (JS.or_number (cacheSize merged) 10000)
              (JS.or_number (timestampTolerance merged) 30 * 1000) with
      | Throw msg => Throw msg
      | Ok cache => Ok {| config := merged; nonceCache := cache |}
      end
  end.

(** [this.nonceCache.get(rateKey) || 0] *)
Definition or_zero (v : option LRUCache.value) : LRUCache.value :=
  match v with
  | None => LRUCache.VNum 0
  | Some (LRUCache.VNum n) => LRUCache.VNum n
  | Some LRUCache.VTrue => LRUCache.VTrue
  end.

(** [ToNumber]: [true] counts as 1 in [>=] and in [+]. *)
Definition to_number (v : LRUCache.value) : Z :=
  match v with
  | LRUCache.VNum n => n
  | LRUCache.VTrue => 1
  end.

(** [this.config.cloudflare?.requestsPerMinute || 30] *)
Definition requestsPerMinuteOf (cfg : PowShieldConfig) : Z :=
  JS.or_number
    (match cloudflare cfg with
     | Some cf => requestsPerMinute cf
     | None => None
     end) 30.

(** [checkRateLimit(clientIp)] at time [now] (milliseconds): whether the
    limit is exceeded, and the instance afterwards. *)
Definition checkRateLimit (this : t) (now : Z) (clientIp : string)
  : bool * t :=
  let requestsPerMinute := requestsPerMinuteOf (config this) in
  let rateKey := ("rate:" ++ clientIp)%string in
  let '(got, cache1) := LRUCache.get (nonceCache this) rateKey now in
  let currentCount := or_zero got in
  if requestsPerMinute <=? to_number currentCount
  then (true, with_cache this cache1)
  else
    (false,
     with_cache this
       (LRUCache.set cache1 rateKey
          (LRUCache.VNum (to_number currentCount + 1)) (Some (60 * 1000))
          now)).

(** [this.config.cloudflare?.rateLimiting] as a condition. *)
Definition rateLimitingOn (cfg : PowShieldConfig) : bool :=
  match cloudflare cfg with
  | Some cf =>
      match rateLimiting cf with
      | Some b => b
      | None => false
      end
  | None => false
  end.

(** The request that [handleRequest] builds at its end. *)
Definition modifiedRequest (request : Request) (hmacSignature : string)
  : Request := {|
  url := url request;
  pathname := pathname request;
  method := method request;
  headers := Headers.set (headers request) "X-HMAC" hmacSignature;
  body := body request;
  redirect := redirect request
|}.

Definition reject (msg : string) (code : Z) (this : t)
  : option Response * t :=
  (Some {| text := msg; status := code |}, this).

(** [handleRequest(request)] when [Date.now()] is [dateNow]: the value it
    returns ([None] is [null]) and the instance afterwards.  The cache reads
    its own millisecond clock, which advances with [Date.now()]; one time
    stands for both, and for the whole call. *)
Definition handleRequest (this : t) (dateNow : Z) (request : Request)
  : option Response * t :=
  let endpoint := pathname request in
  if negb (isProtectedEndpoint (config this) endpoint) then (None, this)
  else
  let timestamp := Headers.get (headers request) "X-Timestamp" in
  let nonce := Headers.get (headers request) "X-Nonce" in
  let context := Headers.get (headers request) "X-Context" in
  let stamp := Headers.get (headers request) "X-Stamp" in
  if JS.falsy timestamp || JS.falsy nonce || JS.falsy context
     || JS.falsy stamp
  then reject "Missing PoW headers" 400 this
  else
  let timestamp := JS.or_empty timestamp in
  let nonce := JS.or_empty nonce in
  let context := JS.or_empty context in
  let stamp := JS.or_empty stamp in
  let now := dateNow / 1000 in
  let timestampNum := JS.parseInt timestamp 10 in
  let tolerance := JS.or_number (timestampTolerance (config this)) 30 in
  if match timestampNum with
     | None => true
     | Some n => tolerance <? now - n
     end
  then reject "Timestamp expired or invalid" 403 this
  else
  let nonceKey := (timestamp ++ ":" ++ nonce)%string in
  if LRUCache.has (nonceCache this) nonceKey dateNow
  then reject "Nonce already used" 403 this
  else
  let dataToHash :=
    (endpoint ++ ":" ++ timestamp ++ ":" ++ nonce ++ ":" ++ context)%string in
  let validStamp := CryptoUtils.sha256 dataToHash in
  if negb (validStamp =? stamp)%string
  then reject "Invalid PoW stamp" 403 this
  else
  let difficulty := JS.or_number (difficulty (config this)) 4 in
  if negb (CryptoUtils.hasLeadingZeros stamp difficulty)
  then reject "Insufficient PoW difficulty" 403 this
  else
  let this1 :=
    with_cache this
      (LRUCache.set (nonceCache this) nonceKey LRUCache.VTrue None dateNow) in
  let '(limitExceeded, this2) :=
    if rateLimitingOn (config this)
    then
      let clientIp :=
        JS.or_empty (Headers.get (headers request) "CF-Connecting-IP") in
      checkRateLimit this1 dateNow clientIp
    else (false, this1) in
  if limitExceeded then reject "Rate limit exceeded" 429 this2
  else
  let hmacData := (timestamp ++ ":" ++ nonce ++ ":" ++ context)%string in
  let hmacSignature :=
    CryptoUtils.hmac hmacData (JS.or_empty (secret (config this)))
                     (hmacAlgorithm (config this)) in
  let modified := modifiedRequest request hmacSignature in
  (* [modified] is not used after this point: the function returns null *)
  (None, this2).

End PowCloudflare.

(* ================================================================= *)
(** ** src/server.ts: the origin verifier *)

Module PowServer.

Record t := { config : PowShieldConfig }.

(** The constructor calls [validateAndMergeConfig(config)] without a
    context argument. *)
Definition constructor (cfg : PowShieldConfig) : result t :=
  match Config.validateAndMergeConfig_default cfg with
  | Throw msg => Throw msg
  | Ok merged => Ok {| config := merged |}
  end.

(** An Express request: [req.path] and [req.headers], whose keys Node
    delivers in lower case. *)
Record ExpressRequest := {
  path : string;
  req_headers : list (string * string)
}.

(** What the middleware does with the request: [next()] or
    [res.status(code).send(text)]. *)
Inductive outcome :=
| next
| send (code : Z) (text : string).

(** [this.config.server?.strictMode] as a condition. *)
Definition strictModeOn (cfg : PowShieldConfig) : bool :=
  match server cfg with
  | Some sv =>
      match strictMode sv with
      | Some b => b
      | None => false
      end
  | None => false
  end.

Definition expressMiddleware (this : t) (req : ExpressRequest) : outcome :=
  if negb (isProtectedEndpoint (config this) (path req)) then next
  else
  let hmacSignature := Headers.lookup "x-hmac" (req_headers req) in
  if JS.falsy hmacSignature
  then
    if strictModeOn (config this) then send 403 "Missing HMAC signature"
    else next
  else
  let timestamp := Headers.lookup "x-timestamp" (req_headers req) in
  let nonce := Headers.lookup "x-nonce" (req_headers req) in
  let context := Headers.lookup "x-context" (req_headers req) in
  if JS.falsy timestamp || JS.falsy nonce || JS.falsy context
  then send 400 "Missing required headers"
  else
  let hmacData :=
    (JS.or_empty timestamp ++ ":" ++ JS.or_empty nonce ++ ":"
       ++ JS.or_empty context)%string in
  let expectedHmac :=
    CryptoUtils.hmac hmacData (JS.or_empty (secret (config this)))
                     (hmacAlgorithm (config this)) in
  if negb (JS.or_empty hmacSignature =? expectedHmac)%string
  then send 403 "Invalid HMAC signature"
  else next.

End PowServer.

(* ================================================================= *)
(** ** src/client.ts: the puzzle solver *)

Module PowClient.

Record t := { config : PowShieldConfig }.

Definition constructor (cfg : PowShieldConfig) : result t :=
  match Config.validateAndMergeConfig cfg ctx_client with
  | Throw msg => Throw msg
  | Ok merged => Ok {| config := merged |}
  end.

(** [CryptoUtils.generateNonce()] draws from a random source: [random n] is
    the nonce that the [n]-th draw returns, and the number of draws made so
    far is threaded through the solver. *)
Definition generateNonce (random : nat -> string) (draws : nat)
  : string * nat :=
  (random draws, S draws).

(** How a run of [generateValidPow] ends. *)
Inductive solved :=
| Found (nonce stamp : string) (attempts : Z) (draws : nat)
| Failed (attempts : Z) (draws : nat)   (* the [throw] after the loop *)
| Running.                               (* the loop has not ended *)

(** [this.config.client?.maxRetries || 5] *)
Definition maxRetriesOf (cfg : PowShieldConfig) : Z :=
  JS.or_number
    (match client cfg with
     | Some cl => maxRetries cl
     | None => None
     end) 5.

(** The [while] loop of [generateValidPow], run for at most [fuel]
    iterations from the state ([attempts], [draws]).  The suspension
    [await new Promise(...)] every 100 attempts changes none of the
    solver's variables. *)
Fixpoint solveLoop (random : nat -> string) (endpoint timestamp context
    : string) (difficulty bound : Z) (fuel : nat) (attempts : Z)
    (draws : nat) : solved :=
  if attempts <? bound then
    match fuel with
    | O => Running
    | S fuel' =>
        let attempts := attempts + 1 in
        let '(nonce, draws) := generateNonce random draws in
        let dataToHash :=
          (endpoint ++ ":" ++ timestamp ++ ":" ++ nonce ++ ":"
             ++ context)%string in
        let stamp := CryptoUtils.sha256 dataToHash in
        if CryptoUtils.hasLeadingZeros stamp difficulty
        then Found nonce stamp attempts draws
        else solveLoop random endpoint timestamp context difficulty bound
                       fuel' attempts draws
    end
  else Failed attempts draws.

(** [generateValidPow(endpoint, timestamp, context)]; the loop is given
    as many iterations as its own bound allows. *)
Definition generateValidPow (this : t) (random : nat -> string)
    (endpoint timestamp context : string) : solved :=
  let difficulty := JS.or_number (difficulty (config this)) 4 in
  let maxRetries := maxRetriesOf (config this) in
  solveLoop random endpoint timestamp context difficulty (maxRetries * 100)
            (Z.to_nat (maxRetries * 100)) 0 0.

(** [generateContext()] outside a browser: the user agent is
    ['unknown']. *)
Definition generateContext (this : t) (userAgent : string) : string :=
  CryptoUtils.generateContext userAgent None
                              (contextGenerator (config this)).

(** [getHeaders(endpoint)] when [Date.now()] is [dateNow]; the failure of
    the solver is passed on to the caller. *)
Definition getHeaders (this : t) (random : nat -> string)
    (dateNow : Z) (userAgent endpoint : string)
  : option (result (list (string * string))) :=
  let timestamp := JS.toString10 (dateNow / 1000) in
  let context := generateContext this userAgent in
  match generateValidPow this random endpoint timestamp context with
  | Found nonce stamp _ _ =>
      Some (Ok [("X-Timestamp", timestamp); ("X-Nonce", nonce);
                ("X-Context", context); ("X-Stamp", stamp)])
  | Failed attempts _ =>
      Some (Throw ("Failed to generate valid PoW after "
                     ++ JS.toString10 attempts ++ " attempts")%string)
  | Running => None
  end.

End PowClient.

(* ================================================================= *)
(** ** The difficulty check as the specification words it *)

Module Spec.

(** Value of a hexadecimal character, either case. *)
Definition hex_value (c : ascii) : option Z :=
  let n := JS.code c in
  if (48 <=? n) && (n <=? 57) then Some (n - 48)
  else if (97 <=? n) && (n <=? 102) then Some (n - 87)
  else if (65 <=? n) && (n <=? 70) then Some (n - 55)
  else None.

Definition is_hex (c : ascii) : bool :=
  match hex_value c with
  | Some _ => true
  | None => false
  end.

(** A hex digest: every character is a hexadecimal digit. *)
Definition hex_digest (d : string) : bool :=
  forallb is_hex (list_ascii_of_string d).

(** The four bits of a nibble, most significant first. *)
Definition nibble_bits (v : Z) : list bool :=
  [Z.testbit v 3; Z.testbit v 2; Z.testbit v 1; Z.testbit v 0].

(** The digest as a bit string: its nibbles, one per character,
    concatenated. *)
Fixpoint bits (d : string) : list bool :=
  match d with
  | EmptyString => []
  | String c rest =>
      match hex_value c with
      | Some v => nibble_bits v ++ bits rest
      | None => bits rest
      end
  end.

(** The first [b] bits exist and are all zero. *)
Definition satisfies (d : string) (b : nat) : Prop :=
  forall i, (i < b)%nat -> nth_error (bits d) i = Some false.

(** A bit string written with the characters 0 and 1. *)
Definition bitchar (b : bool) : ascii := if b then "1"%char else "0"%char.

Fixpoint encode (l : list bool) : string :=
  match l with
  | [] => ""
  | b :: l' => String (bitchar b) (encode l')
  end.

End Spec.

(* ================================================================= *)
(** ** The example worker, examples/cloudflare-worker-universal.js *)

Module Worker.

(** What the worker's [fetch] handler does with a request: answer it, or
    pass a request on to the origin with [fetch(request)]. *)
Inductive action :=
| respond (r : Response)
| forward (r : Request).

Definition fetch (powWorker : PowCloudflare.t) (dateNow : Z)
    (request : Request) : action * PowCloudflare.t :=
  let '(powResponse, powWorker') :=
    PowCloudflare.handleRequest powWorker dateNow request in
  match powResponse with
  | Some r => (respond r, powWorker')
  | None => (forward request, powWorker')
  end.

(** The request as Express presents it at the origin. *)
Definition atOrigin (r : Request) : PowServer.ExpressRequest :=
  {| PowServer.path := pathname r; PowServer.req_headers := headers r |}.

End Worker.

(* ================================================================= *)
(** ** Concrete configurations and requests used as test inputs *)

Module Sample.

Definition userConfig : PowShieldConfig := {|
  endpoints := Some ["/api/data"; "/api/v2/*"];
  secret := Some "s";
  difficulty := Some 4;
  timestampTolerance := None;
  cacheType := None;
  cacheSize := None;
  contextGenerator := None;
  hmacAlgorithm := None;
  client := None;
  cloudflare := None;
  server := None
|}.

Definition config : PowShieldConfig := Config.merge userConfig.

Definition edge : PowCloudflare.t := {|
  PowCloudflare.config := config;
  PowCloudflare.nonceCache :=
    {| LRUCache.max := 10000; LRUCache.ttl := 30000;
       LRUCache.entries := [] |}
|}.

Definition origin : PowServer.t := {| PowServer.config := config |}.

(** An edge validator with room for three entries and a ceiling of
    [rpm] requests per minute: [{ cacheSize: 3, cloudflare:
    { requestsPerMinute: rpm } }]. *)
Definition smallConfig (rpm : Z) : PowShieldConfig := {|
  endpoints := Some ["/api/data"];
  secret := Some "s";
  difficulty := Some 4;
  timestampTolerance := None;
  cacheType := None;
  cacheSize := Some 3;
  contextGenerator := None;
  hmacAlgorithm := None;
  client := None;
  cloudflare := Some {| rateLimiting := None;
                        requestsPerMinute := Some rpm |};
  server := None
|}.

Definition small (rpm : Z) : PowCloudflare.t := {|
  PowCloudflare.config := Config.merge (smallConfig rpm);
  PowCloudflare.nonceCache :=
    {| LRUCache.max := 3; LRUCache.ttl := 30000; LRUCache.entries := [] |}
|}.

(** An edge validator with the default store size and a ceiling of [rpm]
    requests per minute: [{ cloudflare: { requestsPerMinute: rpm } }]. *)
Definition limitedConfig (rpm : Z) : PowShieldConfig := {|
  endpoints := Some ["/api/data"];
  secret := Some "s";
  difficulty := Some 4;
  timestampTolerance := None;
  cacheType := None;
  cacheSize := None;
  contextGenerator := None;
  hmacAlgorithm := None;
  client := None;
  cloudflare := Some {| rateLimiting := None;
                        requestsPerMinute := Some rpm |};
  server := None
|}.

Definition limited (rpm : Z) : PowCloudflare.t := {|
  PowCloudflare.config := Config.merge (limitedConfig rpm);
  PowCloudflare.nonceCache :=
    {| LRUCache.max := 10000; LRUCache.ttl := 30000;
       LRUCache.entries := [] |}
|}.

(** A request to [/api/data] made at second 1700000000.  The stamp is
    the SHA-256 digest of [/api/data:1700000000:<nonce>:ctx]; for the
    nonces n18, n31 and n44 it starts with the nibble 0. *)
Definition request (nonce stamp ip : string) : Request := {|
  url := "https://example.com/api/data";
  pathname := "/api/data";
  method := "GET";
  headers := [("x-timestamp", "1700000000"); ("x-nonce", nonce);
              ("x-context", "ctx"); ("x-stamp", stamp);
              ("cf-connecting-ip", ip)];
  body := None;
  redirect := "follow"
|}.

Definition stamp18 : string :=
  "011ee8f750d9b8396fc22e1efc8c0ffb4e4e71858631bdfb5e68b2e6fda707bc".
Definition stamp31 : string :=
  "085a2555ea1fb1fce233da1f4ae61ae09cacab65aad82f123c9bbd4ed37ca69d".
Definition stamp44 : string :=
  "074eda36772c708b4e2da3696782658e3b564d84890736b7a3828f27d1b757bb".

Definition valid18 : Request := request "n18" stamp18 "10.0.0.1".
Definition valid31 : Request := request "n31" stamp31 "10.0.0.2".
Definition valid44 : Request := request "n44" stamp44 "10.0.0.1".

(** Second 1700000000, in the milliseconds of [Date.now()]. *)
Definition t0 : Z := 1700000000000.

(** A request whose timestamp field is not a number. *)
Definition unparsable : Request := {|
  url := "https://example.com/api/data";
  pathname := "/api/data";
  method := "GET";
  headers := [("x-timestamp", "yesterday"); ("x-nonce", "n18");
              ("x-context", "ctx"); ("x-stamp", stamp18)];
  body := None;
  redirect := "follow"
|}.

(** [{ endpoints: ['/api/test'] }]: no secret. *)
Definition withoutSecret : PowShieldConfig := {|
  endpoints := Some ["/api/test"];
  secret := None;
  difficulty := None;
  timestampTolerance := None;
  cacheType := None;
  cacheSize := None;
  contextGenerator := None;
  hmacAlgorithm := None;
  client := None;
  cloudflare := None;
  server := None
|}.

(** A request at the origin that carries the right signature of
    [1700000000:n11:ctx] under the secret [s] and no [x-stamp]. *)
Definition signedWithoutStamp : PowServer.ExpressRequest := {|
  PowServer.path := "/api/data";
  PowServer.req_headers :=
    [("x-timestamp", "1700000000"); ("x-nonce", "n11"); ("x-context", "ctx");
     ("x-hmac",
      "f101f162a70cd7550a66ece0bd3df2e9881f44103b854c19a4ef30d4b8f67fba")]
|}.

End Sample.

(* ================================================================= *)
(** ** Vocabulary of the properties *)

(** The endpoints list is missing or empty. *)
Definition endpointsMissing (cfg : PowShieldConfig) : Prop :=
  endpoints cfg = None \/ endpoints cfg = Some [].

(** The secret is missing (an empty secret counts as missing). *)
Definition secretMissing (cfg : PowShieldConfig) : Prop :=
  secret cfg = None \/ secret cfg = Some "".

Definition throws {A} (r : result A) : Prop := exists msg, r = Throw msg.

(** The shape every reachable store has: [max] is positive and at most
    [max] entries are held. *)
Definition within_capacity (c : LRUCache.t) : Prop :=
  0 < LRUCache.max c
  /\ Z.of_nat (length (LRUCache.entries c)) <= LRUCache.max c.

Module Solver.

(** The stamp of the [i]-th nonce that the random source delivers. *)
Definition stampOf (random : nat -> string) (endpoint timestamp context
    : string) (i : nat) : string :=
  CryptoUtils.sha256
    (endpoint ++ ":" ++ timestamp ++ ":" ++ random i ++ ":" ++ context)%string.

(** The first [n] nonces of the random source all miss the difficulty. *)
Definition allMiss (random : nat -> string) (endpoint timestamp context
    : string) (difficulty : Z) (n : nat) : Prop :=
  forall i, (i < n)%nat ->
    CryptoUtils.hasLeadingZeros
      (stampOf random endpoint timestamp context i) difficulty = false.

(** A random source for tests: the nonces n0, n1, n2, ... *)
Definition counting (i : nat) : string :=
  ("n" ++ JS.toString10 (Z.of_nat i))%string.

(** A client with [{ client: { maxRetries } }] and difficulty 4. *)
Definition client (retries : Z) : PowClient.t := {|
  PowClient.config :=
    Config.merge {|
      endpoints := Some ["/api/data"];
      secret := None;
      difficulty := Some 4;
      timestampTolerance := None;
      cacheType := None;
      cacheSize := None;
      contextGenerator := None;
      hmacAlgorithm := None;
      client := Some {| maxRetries := Some retries;
                        requestIntegration := None |};
      cloudflare := None;
      server := None
    |}
|}.

End Solver.

Module Edge.

Import PowCloudflare.

Definition nonceKey (ts nonce : string) : string :=
  (ts ++ ":" ++ nonce)%string.

Definition rateKey (clientIp : string) : string :=
  ("rate:" ++ clientIp)%string.

Definition clientIpOf (request : Request) : string :=
  JS.or_empty (Headers.get (headers request) "CF-Connecting-IP").

Definition toleranceOf (cfg : PowShieldConfig) : Z :=
  JS.or_number (timestampTolerance cfg) 30.

Definition difficultyOf (cfg : PowShieldConfig) : Z :=
  JS.or_number (difficulty cfg) 4.

Definition cacheSizeOf (cfg : PowShieldConfig) : Z :=
  JS.or_number (cacheSize cfg) 10000.

(** The request carries the four proof fields with these (non-empty)
    values. *)
Definition carries (request : Request) (ts nonce ctx stamp : string)
  : Prop :=
  (Headers.get (headers request) "X-Timestamp" = Some ts /\ ts <> "")
  /\ (Headers.get (headers request) "X-Nonce" = Some nonce /\ nonce <> "")
  /\ (Headers.get (headers request) "X-Context" = Some ctx /\ ctx <> "")
  /\ (Headers.get (headers request) "X-Stamp" = Some stamp /\ stamp <> "").

(** The timestamp parses and is not older than the tolerance at
    [dateNow]. *)
Definition fresh (cfg : PowShieldConfig) (dateNow : Z) (ts : string)
  : Prop :=
  exists n, JS.parseInt ts 10 = Some n
            /\ dateNow / 1000 - n <= toleranceOf cfg.

(** The stamp is the digest of [endpoint:ts:nonce:ctx] and meets the
    configured difficulty. *)
Definition solves (cfg : PowShieldConfig) (endpoint ts nonce ctx stamp
    : string) : Prop :=
  CryptoUtils.sha256
    (endpoint ++ ":" ++ ts ++ ":" ++ nonce ++ ":" ++ ctx)%string = stamp
  /\ CryptoUtils.hasLeadingZeros stamp (difficultyOf cfg) = true.

(** The request passes every validation step that comes before the rate
    limiter. *)
Definition passes (this : t) (dateNow : Z) (request : Request)
    (ts nonce ctx stamp : string) : Prop :=
  isProtectedEndpoint (config this) (pathname request) = true
  /\ carries request ts nonce ctx stamp
  /\ fresh (config this) dateNow ts
  /\ LRUCache.has (nonceCache this) (nonceKey ts nonce) dateNow = false
  /\ solves (config this) (pathname request) ts nonce ctx stamp.

(** The instance after the nonce of a request has been recorded. *)
Definition marked (this : t) (dateNow : Z) (ts nonce : string) : t :=
  with_cache this
    (LRUCache.set (nonceCache this) (nonceKey ts nonce) LRUCache.VTrue None
                  dateNow).


(** What the constructor establishes and every request preserves. *)
Definition consistent (this : t) : Prop :=
  within_capacity (nonceCache this)
  /\ LRUCache.max (nonceCache this) = cacheSizeOf (config this)
  /\ LRUCache.ttl (nonceCache this) = toleranceOf (config this) * 1000
  /\ 0 < LRUCache.ttl (nonceCache this).

(** The instance after a sequence of requests, each with its arrival
    time. *)
Fixpoint run (this : t) (trace : list (Z * Request)) : t :=
  match trace with
  | [] => this
  | (dateNow, request) :: rest =>
      run (snd (handleRequest this dateNow request)) rest
  end.

(** The request passes every check that [handleRequest] makes before it
    records the nonce and asks the rate limiter: the endpoint is
    protected, the four fields are present, the timestamp parses and is
    fresh, the nonce is not in the store, the stamp is the digest and
    meets the difficulty. *)
Definition otherwiseValid (this : t) (dateNow : Z) (request : Request)
  : bool :=
  let timestamp := Headers.get (headers request) "X-Timestamp" in
  let nonce := Headers.get (headers request) "X-Nonce" in
  let context := Headers.get (headers request) "X-Context" in
  let stamp := Headers.get (headers request) "X-Stamp" in
  isProtectedEndpoint (config this) (pathname request)
  && negb (JS.falsy timestamp || JS.falsy nonce || JS.falsy context
           || JS.falsy stamp)
  && match JS.parseInt (JS.or_empty timestamp) 10 with
     | None => false
     | Some n => negb (toleranceOf (config this) <? dateNow / 1000 - n)
     end
  && negb (LRUCache.has (nonceCache this)
             (nonceKey (JS.or_empty timestamp) (JS.or_empty nonce)) dateNow)
  && (CryptoUtils.sha256
        (pathname request ++ ":" ++ JS.or_empty timestamp ++ ":"
           ++ JS.or_empty nonce ++ ":" ++ JS.or_empty context)
      =? JS.or_empty stamp)%string
  && CryptoUtils.hasLeadingZeros (JS.or_empty stamp)
       (difficultyOf (config this)).

(** How many requests of the trace come from [ip] and are otherwise valid
    when they arrive, the instance being [this] at the start of the
    trace. *)
Fixpoint validBy (ip : string) (this : t) (trace : list (Z * Request))
  : Z :=
  match trace with
  | [] => 0
  | (dateNow, request) :: rest =>
      (if (clientIpOf request =? ip)%string
          && otherwiseValid this dateNow request
       then 1 else 0)
      + validBy ip (snd (handleRequest this dateNow request)) rest
  end.

(** The answer of the timestamp step. *)
Definition expired : option Response :=
  Some {| text := "Timestamp expired or invalid"; status := 403 |}.

(** The state of the counter of [ip] after [k] otherwise valid requests
    of [ip] in a window that starts at [lo]: no entry before the first admission, and then an
    entry set within the window that holds the number of admissions. *)
Definition counted (this : t) (ip : string) (k lo : Z) : Prop :=
  match LRUCache.find (rateKey ip) (LRUCache.entries (nonceCache this)) with
  | None => k = 0 \/ requestsPerMinuteOf (config this) <= 0
  | Some e =>
      0 < k /\ 0 < requestsPerMinuteOf (config this)
      /\ LRUCache.evalue e
         = LRUCache.VNum (Z.min k (requestsPerMinuteOf (config this)))
      /\ LRUCache.ettl e = 60000
      /\ lo <= LRUCache.estart e <= lo + 60000
  end.

(** Every request arrives within the 60 seconds that start at [lo]. *)
Definition inWindow (lo : Z) (trace : list (Z * Request)) : Prop :=
  Forall (fun c => lo <= fst c <= lo + 60000) trace.

Definition rejected (code : Z) (r : option Response) : Prop :=
  exists resp, r = Some resp /\ status resp = code.

End Edge.

(* ================================================================= *)
(** ** src/client.ts: [fetch] *)

Module ClientFetch.

(** The options of a request, [RequestInit]; [init_headers] is the plain
    object [options.headers], empty when there is none. *)
Record RequestInit := {
  init_method : option string;
  init_headers : list (string * string);
  init_body : option string;
  init_redirect : option string
}.

(** The object spread [{ ...a, ...b }]: a key of [b] takes the place of the
    same key of [a], a new key comes last. *)
Definition spread (a b : list (string * string)) : list (string * string) :=
  fold_left (fun acc kv => Headers.replace (fst kv) (snd kv) acc) b a.

(** [{ ...options, headers: mergedHeaders }] *)
Definition withHeaders (options : RequestInit)
    (mergedHeaders : list (string * string)) : RequestInit := {|
  init_method := init_method options;
  init_headers := mergedHeaders;
  init_body := init_body options;
  init_redirect := init_redirect options
|}.

(** The call of the platform's [fetch] that the method ends with. *)
Inductive call :=
| callsFetch (url : string) (init : RequestInit).

(** [fetch(url, options)], where [pathname] is [new URL(url).pathname]:
    the call it makes, or the error of the solver; [None] only if the
    solving loop has not ended. *)
Definition fetch (this : PowClient.t) (random : nat -> string)
    (dateNow : Z) (userAgent : string) (url pathname : string)
    (options : RequestInit) : option (result call) :=
  let endpoint := pathname in
  if negb (isProtectedEndpoint (PowClient.config this) endpoint)
  then Some (Ok (callsFetch url options))
  else
    match PowClient.getHeaders this random dateNow userAgent endpoint with
    | None => None
    | Some (Throw msg) => Some (Throw msg)
    | Some (Ok powHeaders) =>
        let mergedHeaders := spread (init_headers options) powHeaders in
        Some (Ok (callsFetch url (withHeaders options mergedHeaders)))
    end.

End ClientFetch.

(* ================================================================= *)
(** ** src/server.ts: the Fastify and Koa adapters *)

Module Adapters.

(** A Fastify request: [request.url] (the path with its query string) and
    [request.headers]. *)
Record FastifyRequest := {
  f_url : string;
  f_headers : list (string * string)
}.

(** What the [preHandler] hook does: [done()] or
    [reply.code(code).send(text)]. *)
Inductive hookOutcome :=
| done
| reply (code : Z) (text : string).

Definition fastifyHook (this : PowServer.t) (request : FastifyRequest)
  : hookOutcome :=
  if negb (isProtectedEndpoint (PowServer.config this) (f_url request))
  then done
  else
  let hmacSignature := Headers.lookup "x-hmac" (f_headers request) in
  if JS.falsy hmacSignature
  then
    if PowServer.strictModeOn (PowServer.config this)
    then reply 403 "Missing HMAC signature"
    else done
  else
  let timestamp := Headers.lookup "x-timestamp" (f_headers request) in
  let nonce := Headers.lookup "x-nonce" (f_headers request) in
  let context := Headers.lookup "x-context" (f_headers request) in
  if JS.falsy timestamp || JS.falsy nonce || JS.falsy context
  then reply 400 "Missing required headers"
  else
  let hmacData :=
    (JS.or_empty timestamp ++ ":" ++ JS.or_empty nonce ++ ":"
       ++ JS.or_empty context)%string in
  let expectedHmac :=
    CryptoUtils.hmac hmacData (JS.or_empty (secret (PowServer.config this)))
                     (hmacAlgorithm (PowServer.config this)) in
  if negb (JS.or_empty hmacSignature =? expectedHmac)%string
  then reply 403 "Invalid HMAC signature"
  else done.

(** A Koa context: [ctx.path], [ctx.headers], and the response fields
    [ctx.status] and [ctx.body] that the middleware may set. *)
Record KoaContext := {
  k_path : string;
  k_headers : list (string * string);
  k_status : option Z;
  k_body : option string
}.

Definition answer (ctx : KoaContext) (code : Z) (text : string)
  : KoaContext := {|
  k_path := k_path ctx;
  k_headers := k_headers ctx;
  k_status := Some code;
  k_body := Some text
|}.

(** The middleware: the context afterwards, and whether [next()] was
    called. *)
Definition koaMiddleware (this : PowServer.t) (ctx : KoaContext)
  : KoaContext * bool :=
  if negb (isProtectedEndpoint (PowServer.config this) (k_path ctx))
  then (ctx, true)
  else
  let hmacSignature := Headers.lookup "x-hmac" (k_headers ctx) in
  if JS.falsy hmacSignature
  then
    if PowServer.strictModeOn (PowServer.config this)
    then (answer ctx 403 "Missing HMAC signature", false)
    else (ctx, true)
  else
  let timestamp := Headers.lookup "x-timestamp" (k_headers ctx) in
  let nonce := Headers.lookup "x-nonce" (k_headers ctx) in
  let context := Headers.lookup "x-context" (k_headers ctx) in
  if JS.falsy timestamp || JS.falsy nonce || JS.falsy context
  then (answer ctx 400 "Missing required headers", false)
  else
  let hmacData :=
    (JS.or_empty timestamp ++ ":" ++ JS.or_empty nonce ++ ":"
       ++ JS.or_empty context)%string in
  let expectedHmac :=
    CryptoUtils.hmac hmacData (JS.or_empty (secret (PowServer.config this)))
                     (hmacAlgorithm (PowServer.config this)) in
  if negb (JS.or_empty hmacSignature =? expectedHmac)%string
  then (answer ctx 403 "Invalid HMAC signature", false)
  else (ctx, true).

End Adapters.

(** Value of a decimal numeral read after the digits of value [a]. *)
Fixpoint uint_val (d : Decimal.uint) (a : Z) : Z :=
  match d with
  | Decimal.Nil => a
  | Decimal.D0 l => uint_val l (a * 10 + 0)
  | Decimal.D1 l => uint_val l (a * 10 + 1)
  | Decimal.D2 l => uint_val l (a * 10 + 2)
  | Decimal.D3 l => uint_val l (a * 10 + 3)
  | Decimal.D4 l => uint_val l (a * 10 + 4)
  | Decimal.D5 l => uint_val l (a * 10 + 5)
  | Decimal.D6 l => uint_val l (a * 10 + 6)
  | Decimal.D7 l => uint_val l (a * 10 + 7)
  | Decimal.D8 l => uint_val l (a * 10 + 8)
  | Decimal.D9 l => uint_val l (a * 10 + 9)
  end.

(** The request holds every header of the record, under its name. *)
Definition holds (request : Request) (record : list (string * string))
  : Prop :=
  forall name value, In (name, value) record ->
    Headers.get (headers request) name = Some value.

(** A request to [/api/data] made of a record of headers, as the platform
    builds it: the names in lower case. *)
Definition requestWith (record : list (string * string)) : Request := {|
  url := "https://example.com/api/data";
  pathname := "/api/data";
  method := "GET";
  headers := map (fun kv => (Headers.lower (fst kv), snd kv)) record;
  body := None;
  redirect := "follow"
|}.

(** The record of a successful [getHeaders], empty otherwise. *)
Definition recordOf (r : option (result (list (string * string))))
  : list (string * string) :=
  match r with
  | Some (Ok record) => record
  | _ => []
  end.

(** The decision of the Express middleware, as the other two adapters
    express it. *)
Definition asHook (o : PowServer.outcome) : Adapters.hookOutcome :=
  match o with
  | PowServer.next => Adapters.done
  | PowServer.send code text => Adapters.reply code text
  end.

Definition asKoa (ctx : Adapters.KoaContext) (o : PowServer.outcome)
  : Adapters.KoaContext * bool :=
  match o with
  | PowServer.next => (ctx, true)
  | PowServer.send code text => (Adapters.answer ctx code text, false)
  end.

(** A key of the rate limiter: it starts with [rate:]. *)
Definition isRateKey (k : string) : bool := String.prefix "rate:" k.

(** What an entry of the store holds: a counter holds a number between 1
    and the ceiling and lives 60 seconds, any other entry holds [true] and
    lives as long as the cache's own ttl. *)
Definition wellTyped (rpm ttl : Z) (e : LRUCache.entry) : Prop :=
  if isRateKey (LRUCache.ekey e)
  then exists n, LRUCache.evalue e = LRUCache.VNum n /\ 1 <= n <= rpm
                 /\ LRUCache.ettl e = 60000
  else LRUCache.evalue e = LRUCache.VTrue /\ LRUCache.ettl e = ttl.

Definition storeTyped (this : PowCloudflare.t) : Prop :=
  Forall (wellTyped
            (PowCloudflare.requestsPerMinuteOf (PowCloudflare.config this))
            (LRUCache.ttl (PowCloudflare.nonceCache this)))
         (LRUCache.entries (PowCloudflare.nonceCache this)).

(* ================================================================= *)
(** * Properties *)

(** ** Test vectors of the hash functions *)

Example SHA256_abc :
  CryptoJS.SHA256 "abc"
  = "ba7816bf8f01cfea414140de5dae2223b00361a396177a9cb410ff61f20015ad".
Proof. vm_compute. reflexivity. Qed.

Example HmacSHA256_rfc4231_2 :
  CryptoJS.HmacSHA256 "what do ya want for nothing?" "Jefe"
  = "5bdcc146bf60754e6a042426089575c75a003f089d2739839dec58b964ec3843".
Proof. vm_compute. reflexivity. Qed.

Example HmacSHA512_rfc4231_2 :
  CryptoJS.HmacSHA512 "what do ya want for nothing?" "Jefe"
  = ("164b7a7bfcf819e2e395fbe73b56e0a387bd64222e831fd610270cd7ea250554"
       ++ "9758bf75c05a994a6d034f65f8f0e6fdcaeab1a34d4a6b4b636e070a38bce737")%string.
Proof. vm_compute. reflexivity. Qed.

(** The stamps of the sample requests are the digests of their data. *)
Example sample_stamps :
  CryptoUtils.sha256 "/api/data:1700000000:n18:ctx" = Sample.stamp18
  /\ CryptoUtils.sha256 "/api/data:1700000000:n31:ctx" = Sample.stamp31
  /\ CryptoUtils.sha256 "/api/data:1700000000:n44:ctx" = Sample.stamp44.
Proof. vm_compute. repeat split; reflexivity. Qed.

(** The sample instances are what the constructors build. *)
Example sample_instances :
  PowCloudflare.constructor Sample.userConfig = Ok Sample.edge
  /\ PowCloudflare.constructor (Sample.smallConfig 1) = Ok (Sample.small 1)
  /\ PowCloudflare.constructor (Sample.smallConfig 2) = Ok (Sample.small 2)
  /\ PowServer.constructor Sample.userConfig = Ok Sample.origin.
Proof. vm_compute. repeat split; reflexivity. Qed.

(** ** The JavaScript operations on examples *)

Example parseInt_examples :
  JS.parseInt "1700000000" 10 = Some 1700000000
  /\ JS.parseInt "  -12abc" 10 = Some (-12)
  /\ JS.parseInt "abc" 10 = None
  /\ JS.parseInt "" 10 = None
  /\ JS.parseInt "f" 16 = Some 15
  /\ JS.parseInt "g" 16 = None.
Proof. vm_compute. repeat split; reflexivity. Qed.

Example nibble_examples :
  CryptoUtils.nibble "5" = "0101"
  /\ CryptoUtils.nibble "F" = "1111"
  /\ CryptoUtils.nibble "z" = "0NaN"
  /\ CryptoUtils.binary_of "1aF" = "000110101111".
Proof. vm_compute. repeat split; reflexivity. Qed.

(** The cases of test/crypto-utils.test.ts. *)
Example hasLeadingZeros_tests :
  let hash1 := "00ff3bce7220a4acf0af32e90862f3dcce7a2569c1f92147809dc1a" in
  let hash2 := "000ff3bce7220a4acf0af32e90862f3dcce7a2569c1f92147809dc1a" in
  let hash3 := "0000f3bce7220a4acf0af32e90862f3dcce7a2569c1f92147809dc1a" in
  CryptoUtils.hasLeadingZeros hash1 8 = true
  /\ CryptoUtils.hasLeadingZeros hash1 9 = false
  /\ CryptoUtils.hasLeadingZeros hash2 8 = true
  /\ CryptoUtils.hasLeadingZeros hash2 12 = true
  /\ CryptoUtils.hasLeadingZeros hash2 13 = false
  /\ CryptoUtils.hasLeadingZeros hash3 12 = true
  /\ CryptoUtils.hasLeadingZeros hash3 16 = true
  /\ CryptoUtils.hasLeadingZeros hash3 17 = false.
Proof. vm_compute. repeat split; reflexivity. Qed.

(** The cases of test/lru-cache.test.ts on the model of the cache: of
    fifteen keys set into a cache of ten the first five are gone, and an
    entry set with a ttl of 20 ms is there at once and gone 30 ms later. *)
Example lru_cache_tests :
  let empty :=
    {| LRUCache.max := 10; LRUCache.ttl := 50; LRUCache.entries := [] |} in
  let key := fun i => ("key" ++ JS.toString10 (Z.of_nat i))%string in
  let full :=
    fold_left (fun c i => LRUCache.set c (key i) (LRUCache.VNum (Z.of_nat i))
                                       None 1000)
              (seq 0 15) empty in
  let timed := LRUCache.set empty "expiring" LRUCache.VTrue (Some 20) 1000 in
  map (fun i => fst (LRUCache.get full (key i) 1000)) (seq 0 5)
  = [None; None; None; None; None]
  /\ fst (LRUCache.get full "key14" 1000) = Some (LRUCache.VNum 14)
  /\ fst (LRUCache.get full "key10" 1000) = Some (LRUCache.VNum 10)
  /\ fst (LRUCache.get timed "expiring" 1000) = Some LRUCache.VTrue
  /\ fst (LRUCache.get timed "expiring" 1030) = None
  /\ LRUCache.has timed "expiring" 1000 = true
  /\ LRUCache.has timed "nonexistent" 1000 = false.
Proof. vm_compute. repeat split; reflexivity. Qed.

(** ** The difficulty check *)

Section Difficulty.

Import Spec.

Lemma encode_app l1 l2 :
  encode (l1 ++ l2) = (encode l1 ++ encode l2)%string.
Proof. induction l1 as [|b l1 IH]; simpl; [reflexivity | now rewrite IH]. Qed.

Lemma get_encode l i :
  String.get i (encode l) = option_map bitchar (nth_error l i).
Proof.
  revert i; induction l as [|b l IH]; intros [|i]; simpl; auto.
Qed.

(** On a hexadecimal character the code's nibble string is the binary
    expansion of its value. *)
Lemma nibble_hex c v :
  Spec.hex_value c = Some v ->
  CryptoUtils.nibble c = encode (Spec.nibble_bits v).
Proof.
  destruct c as [[] [] [] [] [] [] [] []]; vm_compute; intro H;
    try discriminate H; injection H as <-; reflexivity.
Qed.

Lemma binary_of_hex d :
  Spec.hex_digest d = true ->
  CryptoUtils.binary_of d = encode (Spec.bits d).
Proof.
  unfold Spec.hex_digest.
  induction d as [|c d IH]; [reflexivity|].
  cbn [list_ascii_of_string forallb CryptoUtils.binary_of Spec.bits].
  unfold Spec.is_hex at 1.
  destruct (Spec.hex_value c) as [v|] eqn:Hc; [|discriminate].
  intro Hd. cbn [andb] in Hd.
  rewrite (nibble_hex _ _ Hc), (IH Hd), encode_app. reflexivity.
Qed.

Lemma zeros_from_spec s n : forall i,
  CryptoUtils.zeros_from s i n = true <->
  (forall j, (i <= j < i + n)%nat -> String.get j s = Some "0"%char).
Proof.
  induction n as [|n IH]; intro i; simpl.
  - split; [intros _ j Hj; lia | reflexivity].
  - destruct (String.get i s) as [c|] eqn:Hg.
    + destruct (Ascii.eqb_spec c "0"%char) as [->|Hne].
      * rewrite IH. split.
        -- intros H j Hj. destruct (Nat.eq_dec j i) as [->|]; [assumption|].
           apply H; lia.
        -- intros H j Hj. apply H; lia.
      * assert (Hf : match c with
                     | "0"%char => CryptoUtils.zeros_from s (S i) n
                     | _ => false
                     end = false).
        { destruct c as [[] [] [] [] [] [] [] []]; try reflexivity.
          now elim Hne. }
        rewrite Hf. split; [discriminate|].
        intro H. specialize (H i ltac:(lia)). rewrite Hg in H.
        injection H as ->. now elim Hne.
    + split; [discriminate|].
      intro H. specialize (H i ltac:(lia)). rewrite Hg in H. discriminate.
Qed.

Lemma bits_length d :
  (length (Spec.bits d) <= 4 * String.length d)%nat.
Proof.
  induction d as [|c d IH]; simpl; [lia|].
  destruct (Spec.hex_value c); simpl; lia.
Qed.

End Difficulty.

Lemma bitchar_zero (o : option bool) :
  option_map Spec.bitchar o = Some "0"%char <-> o = Some false.
Proof.
  destruct o as [[|]|]; simpl; split; intro H; try discriminate H; reflexivity.
Qed.

Lemma hasLeadingZeros_satisfies (d : string) (b : nat) :
  Spec.hex_digest d = true ->
  CryptoUtils.hasLeadingZeros d (Z.of_nat b) = true <-> Spec.satisfies d b.
Proof.
  intro Hd. unfold CryptoUtils.hasLeadingZeros, Spec.satisfies.
  rewrite Nat2Z.id, zeros_from_spec, (binary_of_hex d Hd).
  split; intros H j Hj.
  - apply bitchar_zero. rewrite <- get_encode. apply H. lia.
  - rewrite get_encode. apply bitchar_zero. apply H. lia.
Qed.

(** C5. For every hex digest [d] and natural number [b],
    [hasLeadingZeros d b] is true exactly when the first [b] bits of the
    nibble-wise binary expansion of [d] exist and are all zero.  In
    particular it is true for [b = 0] (also for the empty digest), false
    whenever [b > 4 * len d], and it counts bits, not characters: a digest
    that starts with the two characters 00 passes [b = 8], and it fails
    [b = 9] exactly when its ninth bit is missing or is a one, as it is in
    the digest 00ff3bce... of the repository's tests. *)
Theorem hasLeadingZeros_counts_bits (d : string) (b : nat) :
  Spec.hex_digest d = true ->
  (CryptoUtils.hasLeadingZeros d (Z.of_nat b) = true <-> Spec.satisfies d b)
  /\ CryptoUtils.hasLeadingZeros d 0 = true
  /\ CryptoUtils.hasLeadingZeros "" 0 = true
  /\ ((4 * String.length d < b)%nat ->
      CryptoUtils.hasLeadingZeros d (Z.of_nat b) = false)
  /\ (forall rest, d = ("00" ++ rest)%string ->
      CryptoUtils.hasLeadingZeros d 8 = true
      /\ (CryptoUtils.hasLeadingZeros d 9 = false <->
          nth_error (Spec.bits rest) 0 <> Some false))
  /\ (CryptoUtils.hasLeadingZeros
        "00ff3bce7220a4acf0af32e90862f3dcce7a2569c1f92147809dc1a" 8 = true
      /\ CryptoUtils.hasLeadingZeros
           "00ff3bce7220a4acf0af32e90862f3dcce7a2569c1f92147809dc1a" 9
         = false).
Proof.
  intro Hd. split; [apply hasLeadingZeros_satisfies; assumption|].
  split; [reflexivity|]. split; [reflexivity|].
  split; [|split; [|split; vm_compute; reflexivity]].
  - intro Hb. apply not_true_is_false. intro H.
    apply (hasLeadingZeros_satisfies d b Hd) in H.
    pose proof (bits_length d) as Hlen.
    assert (Hi : (length (Spec.bits d) < b)%nat) by lia.
    specialize (H _ Hi).
    (* the index is past the end of the bit string *)
    assert (Hn : nth_error (Spec.bits d) (length (Spec.bits d)) = None)
      by (apply nth_error_None; lia).
    congruence.
  - intros rest ->. split.
    + apply (hasLeadingZeros_satisfies _ 8 Hd).
      intros i Hi. simpl.
      do 8 (destruct i as [|i]; [reflexivity|]). lia.
    + rewrite <- not_true_iff_false.
      change 9 with (Z.of_nat 9).
      rewrite (hasLeadingZeros_satisfies _ 9 Hd). unfold Spec.satisfies.
      simpl. split.
      * intros H Hz. apply H. intros i Hi.
        do 8 (destruct i as [|i]; [reflexivity|]).
        destruct i as [|i]; [exact Hz | lia].
      * intros H Hall. apply H. apply (Hall 8%nat). lia.
Qed.

Lemma hasLeadingZeros_counts_bits_witness :
  Spec.hex_digest "00ff3bce" = true
  /\ CryptoUtils.hasLeadingZeros "00ff3bce" 8 = true
  /\ CryptoUtils.hasLeadingZeros "00ff3bce" 9 = false.
Proof.
  split; [reflexivity|].
  destruct (hasLeadingZeros_counts_bits "00ff3bce" 8 eq_refl)
    as (_ & _ & _ & _ & H & _).
  destruct (H "ff3bce" eq_refl) as [H8 H9].
  split; [exact H8|].
  apply H9. vm_compute. discriminate.
Defined.

(** ** The origin verifier *)

(** C2, counterexample.  A request to a protected endpoint that carries the
    trust signature but no [x-stamp] field is not rejected with 400: the
    verifier admits it. *)
Lemma expressMiddleware_admits_without_stamp :
  isProtectedEndpoint (PowServer.config Sample.origin)
    (PowServer.path Sample.signedWithoutStamp) = true
  /\ JS.falsy (Headers.lookup "x-hmac"
                 (PowServer.req_headers Sample.signedWithoutStamp)) = false
  /\ Headers.lookup "x-stamp"
       (PowServer.req_headers Sample.signedWithoutStamp) = None
  /\ PowServer.expressMiddleware Sample.origin Sample.signedWithoutStamp
     = PowServer.next.
Proof. vm_compute. repeat split; reflexivity. Qed.

(** C2, as amended.  For every request to a protected endpoint: a missing
    (or empty) trust signature is rejected with 403 in strict mode and
    admitted otherwise; with a signature, a missing (or empty) timestamp,
    nonce or context is rejected with 400; with all of them, the request is
    admitted when the signature equals the HMAC of [timestamp:nonce:context]
    under the configured secret and algorithm and rejected with 403 when it
    differs.  The stamp field is not looked at. *)
Theorem expressMiddleware_contract (this : PowServer.t)
    (req : PowServer.ExpressRequest) :
  isProtectedEndpoint (PowServer.config this) (PowServer.path req) = true ->
  let field := fun name => Headers.lookup name (PowServer.req_headers req) in
  (JS.falsy (field "x-hmac") = true ->
   PowServer.expressMiddleware this req
   = if PowServer.strictModeOn (PowServer.config this)
     then PowServer.send 403 "Missing HMAC signature"
     else PowServer.next)
  /\ (JS.falsy (field "x-hmac") = false ->
      JS.falsy (field "x-timestamp") || JS.falsy (field "x-nonce")
        || JS.falsy (field "x-context") = true ->
      PowServer.expressMiddleware this req
      = PowServer.send 400 "Missing required headers")
  /\ (forall sig ts nonce ctx,
      field "x-hmac" = Some sig -> sig <> "" ->
      field "x-timestamp" = Some ts -> ts <> "" ->
      field "x-nonce" = Some nonce -> nonce <> "" ->
      field "x-context" = Some ctx -> ctx <> "" ->
      let expected :=
        CryptoUtils.hmac (ts ++ ":" ++ nonce ++ ":" ++ ctx)%string
          (JS.or_empty (secret (PowServer.config this)))
          (hmacAlgorithm (PowServer.config this)) in
      (sig = expected ->
       PowServer.expressMiddleware this req = PowServer.next)
      /\ (sig <> expected ->
          PowServer.expressMiddleware this req
          = PowServer.send 403 "Invalid HMAC signature")).
Proof.
  intros Hp field. unfold PowServer.expressMiddleware. rewrite Hp.
  cbn [negb]. fold (field "x-hmac") (field "x-timestamp") (field "x-nonce")
    (field "x-context").
  split; [|split].
  - intros ->. reflexivity.
  - intros -> ->. reflexivity.
  - intros sig ts nonce ctx Hs Hs0 Ht Ht0 Hn Hn0 Hc Hc0.
    rewrite Hs, Ht, Hn, Hc.
    destruct sig as [|s0 sig]; [congruence|].
    destruct ts as [|t0 ts]; [congruence|].
    destruct nonce as [|n0 nonce]; [congruence|].
    destruct ctx as [|c0 ctx]; [congruence|].
    cbn [JS.falsy orb JS.or_empty].
    set (expected := CryptoUtils.hmac _ _ _).
    split; intro H.
    + rewrite <- H, String.eqb_refl. reflexivity.
    + apply String.eqb_neq in H. rewrite H. reflexivity.
Qed.

Lemma expressMiddleware_contract_witness :
  PowServer.expressMiddleware Sample.origin Sample.signedWithoutStamp
  = PowServer.next.
Proof.
  destruct (expressMiddleware_contract Sample.origin Sample.signedWithoutStamp
              eq_refl) as (_ & _ & H).
  refine (proj1 (H _ "1700000000" "n11" "ctx" eq_refl _ eq_refl _ eq_refl _
                   eq_refl _) _);
    try discriminate.
  vm_compute. reflexivity.
Defined.

(** ** The LRU store *)

Section LRUFacts.

Import LRUCache.

Lemma find_head k e es :
  ekey e = k -> find k (e :: es) = Some e.
Proof. intros <-. simpl. now rewrite String.eqb_refl. Qed.

Lemma find_key k es e : find k es = Some e -> ekey e = k.
Proof.
  induction es as [|x es IH]; simpl; [discriminate|].
  destruct (String.eqb_spec (ekey x) k); [congruence | exact IH].
Qed.

Lemma find_remove_other k k' es :
  k' <> k -> find k' (remove k es) = find k' es.
Proof.
  intro Hne. induction es as [|x es IH]; simpl; [reflexivity|].
  destruct (String.eqb_spec (ekey x) k) as [Hk|Hk].
  - destruct (String.eqb_spec (ekey x) k'); [congruence | reflexivity].
  - simpl. now rewrite IH.
Qed.

Lemma length_remove k es e :
  find k es = Some e -> S (length (remove k es)) = length es.
Proof.
  induction es as [|x es IH]; simpl; [discriminate|].
  destruct (String.eqb_spec (ekey x) k); [reflexivity|].
  intro H. simpl. now rewrite IH.
Qed.

Lemma length_removelast (es : list entry) :
  es <> [] -> S (length (removelast es)) = length es.
Proof.
  intro H. destruct (exists_last H) as (l & a & ->).
  rewrite removelast_last, length_app. simpl. lia.
Qed.


Lemma set_within_capacity c k v o now :
  within_capacity c -> within_capacity (set c k v o now).
Proof.
  intros [Hmax Hlen]. unfold set, within_capacity.
  destruct (find k (entries c)) as [e|] eqn:Hf; cbn.
  - split; [assumption|]. apply length_remove in Hf. lia.
  - destruct (Z.eqb_spec (Z.of_nat (length (entries c))) (max c)) as [He|He];
      cbn; split; try assumption.
    + destruct (entries c) as [|x es] eqn:Hes; [simpl in *; lia|].
      assert (Hne : x :: es <> []) by discriminate.
      apply length_removelast in Hne. simpl in *. lia.
    + simpl. lia.
Qed.

Lemma get_within_capacity c k now :
  within_capacity c -> within_capacity (snd (get c k now)).
Proof.
  intros [Hmax Hlen]. unfold get, within_capacity.
  destruct (find k (entries c)) as [e|] eqn:Hf; [|now split].
  apply length_remove in Hf.
  destruct (isStale e now); cbn; split; try assumption; simpl; lia.
Qed.

Lemma get_max c k now : max (snd (get c k now)) = max c.
Proof.
  unfold get. destruct (find k (entries c)); [|reflexivity].
  destruct (isStale _ _); reflexivity.
Qed.

Lemma set_max c k v o now : max (set c k v o now) = max c.
Proof.
  unfold set. destruct (find k (entries c)); [reflexivity|].
  destruct (_ =? _); reflexivity.
Qed.

Lemma get_ttl c k now : ttl (snd (get c k now)) = ttl c.
Proof.
  unfold get. destruct (find k (entries c)); [|reflexivity].
  destruct (isStale _ _); reflexivity.
Qed.

Lemma set_ttl c k v o now : ttl (set c k v o now) = ttl c.
Proof.
  unfold set. destruct (find k (entries c)); [reflexivity|].
  destruct (_ =? _); reflexivity.
Qed.

(** After [set], the key holds the new value with a restarted age. *)
Lemma find_set_same c k v o now :
  find k (entries (set c k v o now))
  = Some {| ekey := k; evalue := v; estart := now;
            ettl := match o with Some x => x | None => ttl c end |}.
Proof.
  unfold set. destruct (find k (entries c)); [|destruct (_ =? _)];
    cbn [entries with_entries]; apply find_head; reflexivity.
Qed.

(** A [set] that finds room leaves the other keys as they are. *)
Lemma find_set_other_room c k k' v o now :
  k' <> k ->
  (find k (entries c) <> None \/ Z.of_nat (length (entries c)) <> max c) ->
  find k' (entries (set c k v o now)) = find k' (entries c).
Proof.
  intros Hne Hroom. unfold set.
  destruct (find k (entries c)) as [e|] eqn:Hf; cbn [entries with_entries].
  - simpl. destruct (String.eqb_spec k k'); [congruence|].
    now apply find_remove_other.
  - destruct Hroom as [H|H]; [congruence|].
    apply Z.eqb_neq in H. rewrite H. cbn [entries with_entries]. simpl.
    destruct (String.eqb_spec k k'); [congruence | reflexivity].
Qed.

(** [get] of one key leaves the other keys as they are. *)
Lemma find_get_other c k k' now :
  k' <> k ->
  find k' (entries (snd (get c k now))) = find k' (entries c).
Proof.
  intro Hne. unfold get.
  destruct (find k (entries c)) as [e|] eqn:Hf; [|reflexivity].
  destruct (isStale e now); cbn [snd entries with_entries].
  - now apply find_remove_other.
  - simpl. rewrite (find_key _ _ _ Hf).
    destruct (String.eqb_spec k k'); [congruence|].
    now apply find_remove_other.
Qed.

Lemma get_length c k now :
  (length (entries (snd (get c k now))) <= length (entries c))%nat.
Proof.
  unfold get. destruct (find k (entries c)) as [e|] eqn:Hf; [|reflexivity].
  apply length_remove in Hf.
  destruct (isStale e now); cbn [snd entries with_entries length]; lia.
Qed.

Lemma set_length c k v o now :
  (length (entries (set c k v o now)) <= S (length (entries c)))%nat.
Proof.
  unfold set. destruct (find k (entries c)) as [e|] eqn:Hf.
  - apply length_remove in Hf. cbn [entries with_entries length]. lia.
  - destruct (_ =? _); cbn [entries with_entries length]; [|lia].
    destruct (entries c) as [|x es]; [simpl; lia|].
    assert (Hne : x :: es <> []) by discriminate.
    apply length_removelast in Hne. lia.
Qed.





Lemma not_stale_within e now :
  now - estart e <= ettl e -> isStale e now = false.
Proof.
  intro H. unfold isStale.
  destruct (Z.ltb_spec (ettl e) (now - estart e)); [lia|].
  now rewrite andb_false_r.
Qed.


End LRUFacts.

(** ** The edge validator's pipeline *)

Section Pipeline.

Import PowCloudflare Edge.

Lemma falsy_present s : s <> "" -> JS.falsy (Some s) = false.
Proof. destruct s; [congruence | reflexivity]. Qed.

(** The decisions of [handleRequest] on a protected request that carries
    the four fields, in the order the code takes them. *)
Lemma handleRequest_steps this dateNow request ts nonce ctx stamp :
  isProtectedEndpoint (config this) (pathname request) = true ->
  carries request ts nonce ctx stamp ->
  handleRequest this dateNow request
  = if match JS.parseInt ts 10 with
       | None => true
       | Some n => toleranceOf (config this) <? dateNow / 1000 - n
       end
    then reject "Timestamp expired or invalid" 403 this
    else if LRUCache.has (nonceCache this) (nonceKey ts nonce) dateNow
    then reject "Nonce already used" 403 this
    else if negb (CryptoUtils.sha256
                    (pathname request ++ ":" ++ ts ++ ":" ++ nonce ++ ":"
                       ++ ctx) =? stamp)%string
    then reject "Invalid PoW stamp" 403 this
    else if negb (CryptoUtils.hasLeadingZeros stamp
                    (difficultyOf (config this)))
    then reject "Insufficient PoW difficulty" 403 this
    else
      let '(limitExceeded, this2) :=
        if rateLimitingOn (config this)
        then checkRateLimit (marked this dateNow ts nonce) dateNow
                            (clientIpOf request)
        else (false, marked this dateNow ts nonce) in
      if limitExceeded then reject "Rate limit exceeded" 429 this2
      else (None, this2).
Proof.
  intros Hp ((Ht & Ht0) & (Hn & Hn0) & (Hc & Hc0) & (Hs & Hs0)).
  unfold handleRequest. rewrite Hp, Ht, Hn, Hc, Hs.
  rewrite !falsy_present by assumption.
  cbn [negb orb JS.or_empty]. reflexivity.
Qed.

(** A request that passes the validation steps reaches the rate limiter
    with its nonce recorded, and is answered 429 or [null]. *)
Lemma handleRequest_passes this dateNow request ts nonce ctx stamp :
  passes this dateNow request ts nonce ctx stamp ->
  handleRequest this dateNow request
  = let '(limitExceeded, this2) :=
      if rateLimitingOn (config this)
      then checkRateLimit (marked this dateNow ts nonce) dateNow
                          (clientIpOf request)
      else (false, marked this dateNow ts nonce) in
    if limitExceeded then reject "Rate limit exceeded" 429 this2
    else (None, this2).
Proof.
  intros (Hp & Hc & (n & Hn & Hfresh) & Hhas & Hsha & Hz).
  rewrite (handleRequest_steps _ _ _ _ _ _ _ Hp Hc), Hn, Hhas, Hsha, Hz.
  rewrite String.eqb_refl.
  destruct (Z.ltb_spec (toleranceOf (config this)) (dateNow / 1000 - n));
    [lia | reflexivity].
Qed.

Lemma carries_of_present request :
  JS.falsy (Headers.get (headers request) "X-Timestamp")
    || JS.falsy (Headers.get (headers request) "X-Nonce")
    || JS.falsy (Headers.get (headers request) "X-Context")
    || JS.falsy (Headers.get (headers request) "X-Stamp") = false ->
  exists ts nonce ctx stamp, carries request ts nonce ctx stamp.
Proof.
  unfold carries.
  destruct (Headers.get _ "X-Timestamp") as [[|a ts]|]; try discriminate.
  destruct (Headers.get _ "X-Nonce") as [[|b nonce]|]; try discriminate.
  destruct (Headers.get _ "X-Context") as [[|c ctx]|]; try discriminate.
  destruct (Headers.get _ "X-Stamp") as [[|d stamp]|]; try discriminate.
  intros _. eexists _, _, _, _. repeat split; discriminate.
Qed.

(** Conversely, a protected request that [handleRequest] answers with
    [null] passed every step. *)
Lemma handleRequest_null_passes this dateNow request this' ts nonce ctx
    stamp :
  isProtectedEndpoint (config this) (pathname request) = true ->
  carries request ts nonce ctx stamp ->
  handleRequest this dateNow request = (None, this') ->
  passes this dateNow request ts nonce ctx stamp.
Proof.
  intros Hp Hc H.
  rewrite (handleRequest_steps _ _ _ _ _ _ _ Hp Hc) in H.
  destruct (JS.parseInt ts 10) as [n|] eqn:Hn; [|discriminate H].
  destruct (Z.ltb_spec (toleranceOf (config this)) (dateNow / 1000 - n));
    [discriminate H|].
  destruct (LRUCache.has _ _ _) eqn:Hhas; [discriminate H|].
  destruct (String.eqb_spec
              (CryptoUtils.sha256
                 (pathname request ++ ":" ++ ts ++ ":" ++ nonce ++ ":"
                    ++ ctx)) stamp) as [Hsha|]; [|discriminate H].
  destruct (CryptoUtils.hasLeadingZeros stamp _) eqn:Hz;
    [|discriminate H].
  split; [exact Hp|]. split; [exact Hc|].
  split; [exists n; split; [exact Hn | lia]|].
  split; [exact Hhas|]. split; assumption.
Qed.

Lemma handleRequest_null_inv this dateNow request this' :
  isProtectedEndpoint (config this) (pathname request) = true ->
  handleRequest this dateNow request = (None, this') ->
  exists ts nonce ctx stamp, passes this dateNow request ts nonce ctx stamp.
Proof.
  intros Hp H.
  destruct (JS.falsy (Headers.get (headers request) "X-Timestamp")
            || JS.falsy (Headers.get (headers request) "X-Nonce")
            || JS.falsy (Headers.get (headers request) "X-Context")
            || JS.falsy (Headers.get (headers request) "X-Stamp")) eqn:Hf.
  - unfold handleRequest in H. rewrite Hp, Hf in H. discriminate H.
  - destruct (carries_of_present _ Hf) as (ts & nonce & ctx & stamp & Hc).
    exists ts, nonce, ctx, stamp.
    exact (handleRequest_null_passes _ _ _ _ _ _ _ _ Hp Hc H).
Qed.

End Pipeline.

(** ** Timestamp freshness *)

Section Timestamp.

Import PowCloudflare Edge.

(** C4, counterexample.  A protected request with the four fields whose
    timestamp does not parse is answered 403, not 400. *)
Lemma unparsable_timestamp_403 :
  isProtectedEndpoint (config Sample.edge) (pathname Sample.unparsable)
  = true
  /\ carries Sample.unparsable "yesterday" "n18" "ctx" Sample.stamp18
  /\ JS.parseInt "yesterday" 10 = None
  /\ fst (handleRequest Sample.edge Sample.t0 Sample.unparsable)
     = Some {| text := "Timestamp expired or invalid"; status := 403 |}.
Proof.
  split; [reflexivity|]. split.
  - repeat split; try reflexivity; discriminate.
  - split; vm_compute; reflexivity.
Qed.

(** C4, as amended.  For every protected request with the four fields
    present, the timestamp step answers 403 (with one message for both
    causes) exactly when [parseInt] gives no number or
    [now - timestamp] exceeds the tolerance.  So [now - timestamp =
    tolerance] passes the step, [tolerance + 1] fails it, and with a
    tolerance that is not negative a timestamp in the future is not
    rejected by it. *)
Theorem timestamp_step this dateNow request ts nonce ctx stamp :
  isProtectedEndpoint (config this) (pathname request) = true ->
  carries request ts nonce ctx stamp ->
  let now := dateNow / 1000 in
  let tolerance := toleranceOf (config this) in
  let answer := fst (handleRequest this dateNow request) in
  (answer = expired <->
   JS.parseInt ts 10 = None
   \/ exists n, JS.parseInt ts 10 = Some n /\ tolerance < now - n)
  /\ (forall n, JS.parseInt ts 10 = Some n ->
      (now - n = tolerance -> answer <> expired)
      /\ (now - n = tolerance + 1 -> answer = expired)
      /\ (now < n -> 0 <= tolerance -> answer <> expired)).
Proof.
  intros Hp Hc now tolerance answer.
  assert (Hiff : answer = expired <->
                 JS.parseInt ts 10 = None
                 \/ exists n, JS.parseInt ts 10 = Some n
                              /\ tolerance < now - n).
  { subst answer. rewrite (handleRequest_steps _ _ _ _ _ _ _ Hp Hc).
    fold now tolerance.
    destruct (JS.parseInt ts 10) as [n|] eqn:Hn.
    - destruct (Z.ltb_spec tolerance (now - n)) as [Hlt|Hge].
      + split; [intros _; right; exists n; now split | reflexivity].
      + split.
        * intro H. exfalso. revert H. unfold expired.
          destruct (LRUCache.has _ _ _); [discriminate|].
          destruct (negb (_ =? _)%string); [discriminate|].
          destruct (negb (CryptoUtils.hasLeadingZeros _ _)); [discriminate|].
          destruct (if rateLimitingOn (config this) then _ else _)
            as [[|] this2]; discriminate.
        * intros [H|(m & Hm & Hlt)]; [discriminate|].
          injection Hm as <-. lia.
    - split; [intros _; now left | reflexivity]. }
  split; [exact Hiff|].
  intros n Hn. split; [|split].
  - intros Heq H. apply Hiff in H. destruct H as [H|(m & Hm & Hlt)];
      [congruence|]. rewrite Hn in Hm. injection Hm as <-. lia.
  - intro Heq. apply Hiff. right. exists n. split; [assumption | lia].
  - intros Hfut Htol H. apply Hiff in H. destruct H as [H|(m & Hm & Hlt)];
      [congruence|]. rewrite Hn in Hm. injection Hm as <-. lia.
Qed.

Lemma timestamp_step_witness :
  fst (handleRequest Sample.edge (Sample.t0 + 31000) Sample.valid18)
  = expired.
Proof.
  destruct (timestamp_step Sample.edge (Sample.t0 + 31000) Sample.valid18
              "1700000000" "n18" "ctx" Sample.stamp18) as [_ H].
  - reflexivity.
  - repeat split; try reflexivity; discriminate.
  - apply (H 1700000000); reflexivity.
Defined.

End Timestamp.

(** ** Signing and forwarding *)

Section Forwarding.

Import PowCloudflare Edge.

Lemma lookup_replace_same name value h :
  Headers.lookup name (Headers.replace name value h) = Some value.
Proof.
  induction h as [|[n v] h IH]; cbn [Headers.replace Headers.lookup].
  - now rewrite String.eqb_refl.
  - destruct (String.eqb_spec n name) as [Heq|Hne];
      cbn [Headers.lookup].
    + apply String.eqb_eq in Heq. now rewrite Heq.
    + apply String.eqb_neq in Hne. now rewrite Hne.
Qed.

Lemma lookup_replace_other name name' value h :
  name' <> name ->
  Headers.lookup name' (Headers.replace name value h)
  = Headers.lookup name' h.
Proof.
  intro Hd. induction h as [|[n v] h IH];
    cbn [Headers.replace Headers.lookup].
  - destruct (String.eqb_spec name name'); [congruence | reflexivity].
  - destruct (String.eqb_spec n name) as [Heq|Hne];
      cbn [Headers.lookup].
    + destruct (String.eqb_spec n name'); [congruence | reflexivity].
    + now rewrite IH.
Qed.

(** The request that [handleRequest] builds differs from the incoming one
    in the signature header only, and carries the HMAC there. *)
Lemma modifiedRequest_signed request sig :
  Headers.get (headers (modifiedRequest request sig)) "X-HMAC" = Some sig
  /\ (forall name, Headers.lower name <> "x-hmac" ->
      Headers.get (headers (modifiedRequest request sig)) name
      = Headers.get (headers request) name)
  /\ url (modifiedRequest request sig) = url request
  /\ method (modifiedRequest request sig) = method request
  /\ body (modifiedRequest request sig) = body request
  /\ redirect (modifiedRequest request sig) = redirect request.
Proof.
  split; [|split; [|repeat split]].
  - apply lookup_replace_same.
  - intros name Hname. now apply lookup_replace_other.
Qed.

(** Whatever the worker passes on to the origin is the request it
    received: the signed request never leaves [handleRequest]. *)
Lemma worker_forwards_original powWorker dateNow request r :
  fst (Worker.fetch powWorker dateNow request) = Worker.forward r ->
  r = request.
Proof.
  unfold Worker.fetch.
  destruct (handleRequest powWorker dateNow request) as [[resp|] w'];
    simpl; intro H; [discriminate | congruence].
Qed.

(** C1, the code at a request that passes every validation step.
    [handleRequest] answers [null]: no request carrying [X-HMAC] comes
    out of it.  The worker then passes the request it received on to the
    origin, without the signature, and the origin verifier (strict mode
    is the default) rejects it with 403. *)
Theorem valid_request_forwarded_unsigned :
  passes Sample.edge Sample.t0 Sample.valid18
         "1700000000" "n18" "ctx" Sample.stamp18
  /\ fst (handleRequest Sample.edge Sample.t0 Sample.valid18) = None
  /\ fst (Worker.fetch Sample.edge Sample.t0 Sample.valid18)
     = Worker.forward Sample.valid18
  /\ Headers.get (headers Sample.valid18) "X-HMAC" = None
  /\ PowServer.expressMiddleware Sample.origin
       (Worker.atOrigin Sample.valid18)
     = PowServer.send 403 "Missing HMAC signature".
Proof.
  split.
  - split; [reflexivity|]. split.
    + repeat split; try reflexivity; discriminate.
    + split; [exists 1700000000; split; vm_compute; [reflexivity | discriminate]|].
      split; [reflexivity|]. split; vm_compute; reflexivity.
  - repeat split; vm_compute; reflexivity.
Qed.

End Forwarding.

(** ** Configuration errors *)

Section Configuration.

(** Called with its context, [validateAndMergeConfig] fails exactly when
    the endpoints are missing or empty, or the secret is missing in the
    server or the edge context. *)
Lemma validateAndMergeConfig_throws_iff cfg context :
  throws (Config.validateAndMergeConfig cfg context) <->
  endpointsMissing cfg
  \/ (context <> ctx_client /\ secretMissing cfg).
Proof.
  unfold throws, Config.validateAndMergeConfig, Config.noEndpoints,
    endpointsMissing, secretMissing.
  cbn [Config.merge endpoints secret Config.over Config.DEFAULT_CONFIG].
  destruct (endpoints cfg) as [[|e es]|]; cbn.
  - split; [intros _; left; now right | intros _; eauto].
  - destruct context; cbn.
    + split; [intros [m H]; discriminate H|].
      intros [[H|H]|[H _]]; [discriminate H | discriminate H | congruence].
    + destruct (secret cfg) as [[|c sec]|]; cbn.
      * split; [intros _; right; split; [discriminate | now right]
               | intros _; eauto].
      * split; [intros [m H]; discriminate H|].
        intros [[H|H]|[_ [H|H]]]; discriminate H.
      * split; [intros _; right; split; [discriminate | now left]
               | intros _; eauto].
    + destruct (secret cfg) as [[|c sec]|]; cbn.
      * split; [intros _; right; split; [discriminate | now right]
               | intros _; eauto].
      * split; [intros [m H]; discriminate H|].
        intros [[H|H]|[_ [H|H]]]; discriminate H.
      * split; [intros _; right; split; [discriminate | now left]
               | intros _; eauto].
  - split; [intros _; left; now left | intros _; eauto].
Qed.

(** The server's constructor leaves the context out, so it never asks for
    the secret. *)
Lemma PowServer_constructor_throws_iff cfg :
  throws (PowServer.constructor cfg) <-> endpointsMissing cfg.
Proof.
  unfold PowServer.constructor, Config.validateAndMergeConfig_default.
  pose proof (validateAndMergeConfig_throws_iff cfg ctx_client) as H.
  destruct (Config.validateAndMergeConfig cfg ctx_client) as [m|msg].
  - split.
    + intros [x Hx]. discriminate Hx.
    + intro He. destruct H as [_ H]. destruct H as [x Hx]; [now left|].
      discriminate Hx.
  - split; [|intros _; now exists msg].
    intros _. destruct H as [H _].
    destruct H as [H|[H _]]; [now exists msg | exact H | congruence].
Qed.

(** C8, the code at [new PowServer({ endpoints: ['/api/test'] })].  The
    secret is missing and the context is the server-side verifier, yet
    the constructor returns an instance; its middleware then verifies
    signatures under the empty key. *)
Theorem PowServer_constructed_without_secret :
  secretMissing Sample.withoutSecret
  /\ throws (Config.validateAndMergeConfig Sample.withoutSecret ctx_server)
  /\ PowServer.constructor Sample.withoutSecret
     = Ok {| PowServer.config := Config.merge Sample.withoutSecret |}
  /\ PowServer.expressMiddleware
       {| PowServer.config := Config.merge Sample.withoutSecret |}
       {| PowServer.path := "/api/test";
          PowServer.req_headers :=
            [("x-timestamp", "1"); ("x-nonce", "n"); ("x-context", "c");
             ("x-hmac", CryptoJS.HmacSHA256 "1:n:c" "")] |}
     = PowServer.next.
Proof.
  split; [now left|]. split; [eexists; reflexivity|].
  split; vm_compute; reflexivity.
Qed.

(** The client's constructor passes the client context: only the
    endpoints are required. *)
Lemma PowClient_constructor_throws_iff cfg :
  throws (PowClient.constructor cfg) <-> endpointsMissing cfg.
Proof.
  unfold PowClient.constructor.
  pose proof (validateAndMergeConfig_throws_iff cfg ctx_client) as H.
  destruct (Config.validateAndMergeConfig cfg ctx_client) as [m|msg].
  - split.
    + intros [x Hx]. discriminate Hx.
    + intro He. destruct H as [_ H]. destruct H as [x Hx]; [now left|].
      discriminate Hx.
  - split; [|intros _; now exists msg].
    intros _. destruct H as [H _].
    destruct H as [H|[H _]]; [now exists msg | exact H | congruence].
Qed.

(** The edge validator is built with the compiled [config.js], which asks
    for the secret whatever the context. *)
Lemma PowCloudflare_constructor_requires_secret cfg :
  secretMissing cfg -> throws (PowCloudflare.constructor cfg).
Proof.
  unfold PowCloudflare.constructor, ConfigJs.validateAndMergeConfig.
  intro Hs. destruct (Config.noEndpoints _); [eexists; reflexivity|].
  cbn [Config.merge secret Config.over Config.DEFAULT_CONFIG].
  destruct Hs as [-> | ->]; cbn; eexists; reflexivity.
Qed.

End Configuration.

(** ** The rate limiter *)

Section RateLimiter.

Import PowCloudflare Edge.

Lemma rateKey_inj ip ip' : rateKey ip = rateKey ip' -> ip = ip'.
Proof. unfold rateKey. simpl. congruence. Qed.

(** A timestamp that [parseInt] accepts does not start with the letter of
    the rate keys, so a nonce key is never a rate key. *)
Lemma nonceKey_not_rateKey ts nonce ip n :
  JS.parseInt ts 10 = Some n -> nonceKey ts nonce <> rateKey ip.
Proof.
  intros Hn Heq. unfold nonceKey, rateKey in Heq.
  destruct ts as [|c ts]; [discriminate Hn|].
  cbn [String.append] in Heq. injection Heq as -> _.
  discriminate Hn.
Qed.

Lemma checkRateLimit_config this now ip :
  config (snd (checkRateLimit this now ip)) = config this.
Proof.
  unfold checkRateLimit.
  destruct (LRUCache.get _ _ _) as [got c1].
  destruct (_ <=? _); reflexivity.
Qed.

(** An admitting call stores the incremented count and restarts the age
    of the entry at the time of the call. *)
Lemma checkRateLimit_increments this now ip this' :
  checkRateLimit this now ip = (false, this') ->
  exists count,
    count < requestsPerMinuteOf (config this)
    /\ LRUCache.find (rateKey ip) (LRUCache.entries (nonceCache this'))
       = Some {| LRUCache.ekey := rateKey ip;
                 LRUCache.evalue := LRUCache.VNum (count + 1);
                 LRUCache.estart := now;
                 LRUCache.ettl := 60000 |}.
Proof.
  unfold checkRateLimit. fold (rateKey ip).
  destruct (LRUCache.get _ _ _) as [got c1].
  destruct (Z.leb_spec (requestsPerMinuteOf (config this))
                       (to_number (or_zero got))) as [|Hlt]; [discriminate|].
  intro Heq. injection Heq as <-. exists (to_number (or_zero got)).
  split; [assumption|]. cbn [nonceCache with_cache].
  apply find_set_same.
Qed.

Lemma checkRateLimit_same this now ip k lo :
  counted this ip k lo -> 0 <= k -> lo <= now <= lo + 60000 ->
  fst (checkRateLimit this now ip)
  = (requestsPerMinuteOf (config this) <=? k)
  /\ counted (snd (checkRateLimit this now ip)) ip (k + 1) lo.
Proof.
  unfold counted. intros Hc Hk Hnow.
  rewrite checkRateLimit_config.
  unfold checkRateLimit, LRUCache.get. fold (rateKey ip).
  set (rpm := requestsPerMinuteOf (config this)) in *.
  destruct (LRUCache.find (rateKey ip) _) as [e|] eqn:Hf.
  - destruct Hc as (Hk0 & Hrpm & Hv & Httl & Hst).
    rewrite not_stale_within by lia. rewrite Hv.
    cbn [or_zero to_number].
    destruct (Z.leb_spec rpm (Z.min k rpm)) as [Hle|Hgt];
      cbn [fst snd nonceCache with_cache LRUCache.entries
           LRUCache.with_entries].
    + split; [symmetry; apply Z.leb_le; lia|].
      rewrite (find_head _ _ _ (find_key _ _ _ Hf)).
      repeat split; try lia. rewrite Hv. f_equal. lia.
    + split; [symmetry; apply Z.leb_gt; lia|].
      rewrite find_set_same. cbn.
      repeat split; try lia. f_equal. lia.
  - cbn [or_zero to_number].
    destruct (Z.leb_spec rpm 0) as [Hle|Hgt];
      cbn [fst snd nonceCache with_cache].
    + split; [symmetry; apply Z.leb_le; lia|].
      rewrite Hf. now right.
    + assert (k = 0) by (destruct Hc; lia). subst k.
      split; [symmetry; apply Z.leb_gt; lia|].
      rewrite find_set_same. cbn.
      repeat split; try lia. f_equal. lia.
Qed.

Lemma checkRateLimit_other this now ip ip' k lo :
  ip' <> ip ->
  counted this ip k lo ->
  Z.of_nat (length (LRUCache.entries (nonceCache this)))
    < LRUCache.max (nonceCache this) ->
  counted (snd (checkRateLimit this now ip')) ip k lo.
Proof.
  unfold counted. intros Hne Hc Hroom.
  rewrite checkRateLimit_config.
  assert (Hk : rateKey ip <> rateKey ip')
    by (intro H; apply rateKey_inj in H; congruence).
  assert (Hfind :
    LRUCache.find (rateKey ip)
      (LRUCache.entries (nonceCache (snd (checkRateLimit this now ip'))))
    = LRUCache.find (rateKey ip) (LRUCache.entries (nonceCache this))).
  { unfold checkRateLimit. fold (rateKey ip').
    pose proof (find_get_other (nonceCache this) (rateKey ip') (rateKey ip)
                  now Hk) as Hg.
    pose proof (get_max (nonceCache this) (rateKey ip') now) as Hm.
    assert (Hlen :
      (length (LRUCache.entries
                 (snd (LRUCache.get (nonceCache this) (rateKey ip') now)))
       <= length (LRUCache.entries (nonceCache this)))%nat).
    { unfold LRUCache.get.
      destruct (LRUCache.find (rateKey ip') _) as [e|] eqn:Hf;
        [|reflexivity].
      apply length_remove in Hf.
      destruct (LRUCache.isStale e now);
        cbn [snd LRUCache.entries LRUCache.with_entries length]; lia. }
    destruct (LRUCache.get _ _ _) as [got c1]. cbn [snd] in *.
    destruct (_ <=? _); cbn [snd nonceCache with_cache]; [exact Hg|].
    rewrite find_set_other_room; [exact Hg | exact Hk |].
    right. lia. }
  rewrite Hfind. exact Hc.
Qed.

Lemma checkRateLimit_length this now ip :
  LRUCache.max (nonceCache (snd (checkRateLimit this now ip)))
  = LRUCache.max (nonceCache this)
  /\ (length (LRUCache.entries
                (nonceCache (snd (checkRateLimit this now ip))))
      <= S (length (LRUCache.entries (nonceCache this))))%nat.
Proof.
  unfold checkRateLimit.
  pose proof (get_max (nonceCache this) (rateKey ip) now) as Hm.
  pose proof (get_length (nonceCache this) (rateKey ip) now) as Hl.
  fold (rateKey ip).
  destruct (LRUCache.get _ _ _) as [got c1]. cbn [snd] in *.
  destruct (_ <=? _); cbn [snd nonceCache with_cache].
  - split; [exact Hm | lia].
  - rewrite set_max. split; [exact Hm|].
    pose proof (set_length c1 (rateKey ip)
                  (LRUCache.VNum (to_number (or_zero got) + 1))
                  (Some (60 * 1000)) now). lia.
Qed.

(** [otherwiseValid] says that the request passes the validation
    steps. *)
Lemma otherwiseValid_iff this dateNow request :
  otherwiseValid this dateNow request = true
  <-> exists ts nonce ctx stamp,
        passes this dateNow request ts nonce ctx stamp.
Proof.
  unfold otherwiseValid. split.
  - intro H.
    apply andb_prop in H as [H Hz]. apply andb_prop in H as [H Hsha].
    apply andb_prop in H as [H Hhas]. apply andb_prop in H as [H Hts].
    apply andb_prop in H as [Hp Hf].
    apply negb_true_iff in Hf, Hhas.
    destruct (carries_of_present _ Hf) as (ts & nonce & ctx & stamp & Hc).
    exists ts, nonce, ctx, stamp.
    pose proof Hc as ((Ht & _) & (Hn & _) & (Hx & _) & (Hs & _)).
    rewrite Ht, Hn, Hx, Hs in *. cbn [JS.or_empty] in *.
    split; [exact Hp|]. split; [exact Hc|].
    split; [|split; [exact Hhas|split;
                     [apply String.eqb_eq, Hsha | exact Hz]]].
    destruct (JS.parseInt ts 10) as [n|] eqn:Hnum; [|discriminate Hts].
    exists n. split; [exact Hnum|].
    apply negb_true_iff, Z.ltb_ge in Hts. exact Hts.
  - intros (ts & nonce & ctx & stamp & Hp & Hc & (n & Hn & Hfresh) & Hhas
            & Hsha & Hz).
    pose proof Hc as ((Ht & Ht0) & (Hnn & Hn0) & (Hx & Hx0) & (Hs & Hs0)).
    rewrite Hp, Ht, Hnn, Hx, Hs. rewrite !falsy_present by assumption.
    cbn [JS.or_empty negb orb andb]. rewrite Hn, Hhas, Hsha, Hz.
    rewrite String.eqb_refl.
    destruct (Z.ltb_spec (toleranceOf (config this)) (dateNow / 1000 - n));
      [lia | reflexivity].
Qed.

(** A request that fails one of the validation steps leaves the instance
    as it is. *)
Lemma handleRequest_invalid this dateNow request :
  otherwiseValid this dateNow request = false ->
  snd (handleRequest this dateNow request) = this.
Proof.
  intro Hv.
  destruct (isProtectedEndpoint (config this) (pathname request)) eqn:Hp;
    [|unfold handleRequest; rewrite Hp; reflexivity].
  destruct (JS.falsy (Headers.get (headers request) "X-Timestamp")
            || JS.falsy (Headers.get (headers request) "X-Nonce")
            || JS.falsy (Headers.get (headers request) "X-Context")
            || JS.falsy (Headers.get (headers request) "X-Stamp")) eqn:Hf;
    [unfold handleRequest; rewrite Hp, Hf; reflexivity|].
  destruct (carries_of_present _ Hf) as (ts & nonce & ctx & stamp & Hc).
  rewrite (handleRequest_steps _ _ _ _ _ _ _ Hp Hc).
  unfold otherwiseValid in Hv. rewrite Hp, Hf in Hv.
  destruct Hc as ((Ht & _) & (Hn & _) & (Hx & _) & (Hs & _)).
  rewrite Ht, Hn, Hx, Hs in Hv. cbn [JS.or_empty negb andb] in Hv.
  destruct (JS.parseInt ts 10) as [n|]; [|reflexivity].
  destruct (_ <? _); [reflexivity|].
  destruct (LRUCache.has _ _ _); [reflexivity|].
  destruct (_ =? _)%string; [|reflexivity].
  destruct (CryptoUtils.hasLeadingZeros _ _); [|reflexivity].
  discriminate Hv.
Qed.

(** One request, seen from the counter of [ip]: with room for two more
    entries nothing is evicted, so the counter moves exactly when the
    request comes from [ip] and is otherwise valid, and such a request is
    answered 429 exactly when the counter has reached the ceiling. *)
Lemma handleRequest_counts this dateNow request ip k lo :
  rateLimitingOn (config this) = true ->
  counted this ip k lo -> 0 <= k -> lo <= dateNow <= lo + 60000 ->
  Z.of_nat (length (LRUCache.entries (nonceCache this))) + 2
    <= LRUCache.max (nonceCache this) ->
  let this' := snd (handleRequest this dateNow request) in
  let mine := (clientIpOf request =? ip)%string
              && otherwiseValid this dateNow request in
  config this' = config this
  /\ LRUCache.max (nonceCache this') = LRUCache.max (nonceCache this)
  /\ (length (LRUCache.entries (nonceCache this'))
      <= 2 + length (LRUCache.entries (nonceCache this)))%nat
  /\ counted this' ip (k + if mine then 1 else 0) lo
  /\ (mine = true ->
      fst (handleRequest this dateNow request)
      = if requestsPerMinuteOf (config this) <=? k
        then Some {| text := "Rate limit exceeded"; status := 429 |}
        else None).
Proof.
  intros Hon Hc Hk Hnow Hroom this' mine. subst this' mine.
  destruct (otherwiseValid this dateNow request) eqn:Hv.
  - apply otherwiseValid_iff in Hv.
    destruct Hv as (ts & nonce & ctx & stamp & Hpass).
    rewrite (handleRequest_passes _ _ _ _ _ _ _ Hpass), Hon.
    destruct Hpass as (_ & _ & (n & Hn & _) & _ & _).
    set (m := marked this dateNow ts nonce).
    assert (Hcfg : config m = config this) by reflexivity.
    assert (Hmax : LRUCache.max (nonceCache m)
                   = LRUCache.max (nonceCache this))
      by (subst m; cbn [marked nonceCache with_cache]; apply set_max).
    assert (Hlen : (length (LRUCache.entries (nonceCache m))
                    <= S (length (LRUCache.entries (nonceCache this))))%nat)
      by (subst m; cbn [marked nonceCache with_cache]; apply set_length).
    assert (Hm : counted m ip k lo).
    { unfold counted in *. rewrite Hcfg.
      subst m. cbn [marked nonceCache with_cache].
      rewrite find_set_other_room; [exact Hc | |right; lia].
      intro E. symmetry in E.
      exact (nonceKey_not_rateKey ts nonce ip n Hn E). }
    pose proof (checkRateLimit_config m dateNow (clientIpOf request)) as Hc2.
    pose proof (checkRateLimit_length m dateNow (clientIpOf request))
      as [Hmax2 Hlen2].
    assert (Hstep :
      counted (snd (checkRateLimit m dateNow (clientIpOf request))) ip
        (k + if (clientIpOf request =? ip)%string && true then 1 else 0)
        lo
      /\ ((clientIpOf request =? ip)%string && true = true ->
          fst (checkRateLimit m dateNow (clientIpOf request))
          = (requestsPerMinuteOf (config this) <=? k))).
    { destruct (String.eqb_spec (clientIpOf request) ip) as [->|Hne];
        cbn [andb].
      - destruct (checkRateLimit_same m dateNow ip k lo Hm Hk Hnow)
          as [Ha Hc'].
        split; [exact Hc' | intros _; rewrite Ha, Hcfg; reflexivity].
      - rewrite Z.add_0_r. split; [|discriminate].
        apply checkRateLimit_other; [exact Hne | exact Hm | lia]. }
    destruct Hstep as [Hc' Ha].
    destruct (checkRateLimit m dateNow (clientIpOf request))
      as [ex this2].
    cbn [fst snd] in *.
    assert (Hsnd : snd (if ex
                        then reject "Rate limit exceeded" 429 this2
                        else (None, this2)) = this2)
      by (destruct ex; reflexivity).
    rewrite Hsnd.
    split; [congruence|]. split; [congruence|]. split; [lia|].
    split; [exact Hc'|].
    intro Hmine. rewrite (Ha Hmine).
    destruct (_ <=? _); reflexivity.
  - rewrite (handleRequest_invalid _ _ _ Hv), andb_false_r, Z.add_0_r.
    split; [reflexivity|]. split; [reflexivity|]. split; [lia|].
    split; [exact Hc | discriminate].
Qed.

(** The answers along a trace: an otherwise valid request of [ip] is
    answered 429 exactly when the otherwise valid requests of [ip] before
    it have reached the ceiling. *)
Lemma run_counts ip lo pre : forall this k t request post,
  rateLimitingOn (config this) = true ->
  counted this ip k lo -> 0 <= k ->
  inWindow lo (pre ++ (t, request) :: post) ->
  Z.of_nat (length (LRUCache.entries (nonceCache this)))
    + 2 * Z.of_nat (length (pre ++ (t, request) :: post))
    <= LRUCache.max (nonceCache this) ->
  clientIpOf request = ip ->
  otherwiseValid (run this pre) t request = true ->
  0 <= validBy ip this pre
  /\ fst (handleRequest (run this pre) t request)
     = if requestsPerMinuteOf (config this) <=? k + validBy ip this pre
       then Some {| text := "Rate limit exceeded"; status := 429 |}
       else None.
Proof.
  induction pre as [|[now r0] pre IH];
    intros this k t request post Hon Hc Hk Hw Hroom Hip Hv.
  - cbn [run validBy]. rewrite Z.add_0_r. split; [lia|].
    cbn [app] in Hw, Hroom. cbn [run] in Hv.
    inversion Hw as [|c l Hnow _ E]; subst c l. cbn [fst] in Hnow.
    cbn [length] in Hroom.
    destruct (handleRequest_counts this t request ip k lo Hon Hc Hk Hnow
                ltac:(lia)) as (_ & _ & _ & _ & Ha).
    apply Ha. rewrite Hv, Hip, String.eqb_refl. reflexivity.
  - cbn [app] in Hw, Hroom. cbn [run validBy] in *.
    inversion Hw as [|c l Hnow Hw' E]; subst c l. cbn [fst] in Hnow.
    cbn [length] in Hroom.
    destruct (handleRequest_counts this now r0 ip k lo Hon Hc Hk Hnow
                ltac:(lia)) as (Hcfg & Hmax & Hlen & Hc' & _).
    set (mine := (clientIpOf r0 =? ip)%string
                 && otherwiseValid this now r0) in *.
    destruct (IH (snd (handleRequest this now r0))
                 (k + if mine then 1 else 0) t request post) as [H0 Ha];
      try assumption.
    + rewrite Hcfg. exact Hon.
    + destruct mine; lia.
    + rewrite Hmax. lia.
    + split; [destruct mine; lia|].
      rewrite Ha, Hcfg, Z.add_assoc. reflexivity.
Qed.

(** C6, counterexample.  With room for three entries and a ceiling of
    one request per minute, the caller 10.0.0.1 is admitted twice within
    two milliseconds: the request of 10.0.0.2 in between fills the store,
    and the nonce of the third request evicts the counter of 10.0.0.1. *)
Lemma ceiling_lost_by_eviction :
  let '(r1, e1) :=
    handleRequest (Sample.small 1) Sample.t0 Sample.valid18 in
  let '(r2, e2) := handleRequest e1 (Sample.t0 + 1) Sample.valid31 in
  let '(r3, e3) := handleRequest e2 (Sample.t0 + 2) Sample.valid44 in
  constructor (Sample.smallConfig 1) = Ok (Sample.small 1)
  /\ requestsPerMinuteOf (config (Sample.small 1)) = 1
  /\ rateLimitingOn (config (Sample.small 1)) = true
  /\ clientIpOf Sample.valid18 = clientIpOf Sample.valid44
  /\ r1 = None /\ r2 = None /\ r3 = None.
Proof. vm_compute. repeat split; reflexivity. Qed.

(** C6, as amended.  Take requests that all arrive within one 60-second
    window at an edge validator with rate limiting on, whose store holds
    no counter for [ip] yet and has room for the two entries (a nonce and
    a counter) that each request can add, so that nothing is evicted.
    Then an otherwise valid request of [ip] (one that passes every
    validation step) is answered 429 exactly when [requestsPerMinute] or
    more otherwise valid requests of [ip] came before it, and is admitted
    otherwise: the first [requestsPerMinute] of them are admitted, the
    next one and every later one are rejected with 429.  The other
    requests of the trace, whoever sends them and whatever they carry, do
    not count. *)
Theorem rate_ceiling_per_caller this ip lo trace :
  rateLimitingOn (config this) = true ->
  LRUCache.find (rateKey ip) (LRUCache.entries (nonceCache this)) = None ->
  inWindow lo trace ->
  Z.of_nat (length (LRUCache.entries (nonceCache this)))
    + 2 * Z.of_nat (length trace) <= LRUCache.max (nonceCache this) ->
  (forall that dateNow request,
      otherwiseValid that dateNow request = true
      <-> exists ts nonce ctx stamp,
            passes that dateNow request ts nonce ctx stamp)
  /\ (forall pre t request post,
      trace = pre ++ (t, request) :: post ->
      clientIpOf request = ip ->
      otherwiseValid (run this pre) t request = true ->
      0 <= validBy ip this pre
      /\ fst (handleRequest (run this pre) t request)
         = if requestsPerMinuteOf (config this) <=? validBy ip this pre
           then Some {| text := "Rate limit exceeded"; status := 429 |}
           else None).
Proof.
  intros Hon Hnone Hw Hroom. split; [apply otherwiseValid_iff|].
  intros pre t request post -> Hip Hv.
  assert (Hc : counted this ip 0 lo)
    by (unfold counted; rewrite Hnone; now left).
  exact (run_counts ip lo pre this 0 t request post Hon Hc (Z.le_refl 0)
           Hw Hroom Hip Hv).
Qed.

Lemma rate_ceiling_per_caller_witness :
  constructor (Sample.limitedConfig 1) = Ok (Sample.limited 1)
  /\ fst (handleRequest
            (run (Sample.limited 1)
               [(Sample.t0, Sample.valid18);
                (Sample.t0 + 1, Sample.valid31)])
            (Sample.t0 + 2) Sample.valid44)
     = Some {| text := "Rate limit exceeded"; status := 429 |}.
Proof.
  split; [vm_compute; reflexivity|].
  assert (Hon : rateLimitingOn (config (Sample.limited 1)) = true)
    by (vm_compute; reflexivity).
  assert (Hnone : LRUCache.find (rateKey "10.0.0.1")
                    (LRUCache.entries (nonceCache (Sample.limited 1)))
                  = None) by reflexivity.
  assert (Hw : inWindow Sample.t0
                 [(Sample.t0, Sample.valid18);
                  (Sample.t0 + 1, Sample.valid31);
                  (Sample.t0 + 2, Sample.valid44)])
    by (unfold inWindow; repeat constructor; vm_compute; discriminate).
  assert (Hroom : Z.of_nat (length (LRUCache.entries
                                      (nonceCache (Sample.limited 1))))
                  + 2 * Z.of_nat 3
                  <= LRUCache.max (nonceCache (Sample.limited 1)))
    by (vm_compute; discriminate).
  assert (Hip : clientIpOf Sample.valid44 = "10.0.0.1")
    by (vm_compute; reflexivity).
  assert (Hv : otherwiseValid
                 (run (Sample.limited 1)
                    [(Sample.t0, Sample.valid18);
                     (Sample.t0 + 1, Sample.valid31)])
                 (Sample.t0 + 2) Sample.valid44 = true)
    by (vm_compute; reflexivity).
  destruct (rate_ceiling_per_caller (Sample.limited 1) "10.0.0.1"
              Sample.t0
              [(Sample.t0, Sample.valid18);
               (Sample.t0 + 1, Sample.valid31);
               (Sample.t0 + 2, Sample.valid44)] Hon Hnone Hw Hroom)
    as [_ H].
  destruct (H [(Sample.t0, Sample.valid18);
               (Sample.t0 + 1, Sample.valid31)]
              (Sample.t0 + 2) Sample.valid44 [] eq_refl Hip Hv)
    as [_ Ha].
  rewrite Ha. vm_compute. reflexivity.
Defined.

(** C7, the code at three calls for one caller with a ceiling of 2: at
    second 0, at second 50 and at second 70 of a window.  The second
    call restarts the 60-second timer, so 70 seconds after the first
    increment the count has not been reset and the third call is refused;
    it is reset only 60 seconds after the last admission. *)
Theorem rate_window_restarts_on_admission :
  let ip := "10.0.0.1" in
  let '(a1, e1) := checkRateLimit (Sample.small 2) Sample.t0 ip in
  let '(a2, e2) := checkRateLimit e1 (Sample.t0 + 50000) ip in
  let '(a3, e3) := checkRateLimit e2 (Sample.t0 + 70000) ip in
  let '(a4, e4) := checkRateLimit e3 (Sample.t0 + 110001) ip in
  requestsPerMinuteOf (config (Sample.small 2)) = 2
  /\ a1 = false /\ a2 = false /\ a3 = true /\ a4 = false
  /\ LRUCache.entries (nonceCache e2)
     = [{| LRUCache.ekey := "rate:10.0.0.1";
           LRUCache.evalue := LRUCache.VNum 2;
           LRUCache.estart := Sample.t0 + 50000;
           LRUCache.ettl := 60000 |}].
Proof. vm_compute. repeat split; reflexivity. Qed.

End RateLimiter.

(** ** Replay detection *)

Section Replay.

Import PowCloudflare Edge.







End Replay.

(** ** One store for nonces and counters *)

Section SharedStore.

Import PowCloudflare Edge.

Lemma constructor_consistent cfg this0 :
  constructor cfg = Ok this0 ->
  consistent this0 /\ LRUCache.entries (nonceCache this0) = [].
Proof.
  unfold constructor, LRUCache.create.
  destruct (ConfigJs.validateAndMergeConfig cfg) as [merged|msg];
    [|discriminate].
  destruct (Z.ltb_spec 0 (JS.or_number (cacheSize merged) 10000))
    as [Hm|]; [|discriminate].
  destruct (Z.ltb_spec 0 (JS.or_number (timestampTolerance merged) 30
                          * 1000)) as [Ht|]; [|discriminate].
  cbn [andb]. intro Heq. injection Heq as <-.
  unfold consistent, within_capacity. cbn. repeat split; lia.
Qed.

Lemma checkRateLimit_consistent this now ip :
  consistent this -> consistent (snd (checkRateLimit this now ip)).
Proof.
  intros (Hcap & Hmax & Httl & Hpos). unfold consistent.
  rewrite checkRateLimit_config.
  unfold checkRateLimit. fold (rateKey ip).
  pose proof (get_within_capacity _ (rateKey ip) now Hcap) as Hg.
  pose proof (get_max (nonceCache this) (rateKey ip) now) as Hgm.
  pose proof (get_ttl (nonceCache this) (rateKey ip) now) as Hgt.
  destruct (LRUCache.get _ _ _) as [got c1]. cbn [snd] in *.
  destruct (_ <=? _); cbn [snd nonceCache with_cache].
  - repeat split; try apply Hg; congruence.
  - rewrite set_max, set_ttl.
    repeat split; try (apply set_within_capacity; exact Hg); congruence.
Qed.

Lemma marked_consistent this now ts nonce :
  consistent this -> consistent (marked this now ts nonce).
Proof.
  intros (Hcap & Hmax & Httl & Hpos). unfold consistent, marked.
  cbn [nonceCache config with_cache]. rewrite set_max, set_ttl.
  repeat split; try (apply set_within_capacity; exact Hcap); congruence.
Qed.

Lemma handleRequest_consistent this dateNow request :
  consistent this ->
  consistent (snd (handleRequest this dateNow request))
  /\ config (snd (handleRequest this dateNow request)) = config this.
Proof.
  intro Hc. unfold handleRequest, reject.
  repeat match goal with
         | |- context [if ?b then (_, _) else _] =>
             destruct b; [cbn [snd]; now split|]
         end.
  fold (nonceKey (JS.or_empty (Headers.get (headers request) "X-Timestamp"))
                 (JS.or_empty (Headers.get (headers request) "X-Nonce"))).
  fold (marked this dateNow
          (JS.or_empty (Headers.get (headers request) "X-Timestamp"))
          (JS.or_empty (Headers.get (headers request) "X-Nonce"))).
  set (m := marked this dateNow _ _).
  assert (Hm : consistent m) by (now apply marked_consistent).
  destruct (rateLimitingOn (config this)).
  - pose proof (checkRateLimit_consistent m dateNow
                  (JS.or_empty (Headers.get (headers request)
                                  "CF-Connecting-IP")) Hm) as Hr.
    pose proof (checkRateLimit_config m dateNow
                  (JS.or_empty (Headers.get (headers request)
                                  "CF-Connecting-IP"))) as Hcfg.
    destruct (checkRateLimit m dateNow _) as [[|] this2]; cbn [snd] in *;
      split; assumption.
  - cbn [snd]. split; [exact Hm | reflexivity].
Qed.

Lemma run_consistent trace : forall this,
  consistent this ->
  consistent (run this trace) /\ config (run this trace) = config this.
Proof.
  induction trace as [|[dateNow request] rest IH]; intros this Hc;
    cbn [run]; [now split|].
  destruct (handleRequest_consistent this dateNow request Hc) as [Hc' Hcfg].
  destruct (IH _ Hc') as [Hc'' Hcfg'']. split; [assumption | congruence].
Qed.



End SharedStore.

(** ** The client's solving loop *)

Section SolvingLoop.

Import PowClient Solver.

Variable random : nat -> string.
Variables endpoint timestamp context : string.
Variables difficulty bound : Z.

Lemma solveLoop_ends : forall fuel attempts draws,
  Z.of_nat draws = attempts ->
  bound - attempts <= Z.of_nat fuel ->
  allMiss random endpoint timestamp context difficulty draws ->
  match solveLoop random endpoint timestamp context difficulty bound fuel
                  attempts draws with
  | Found nonce stamp a d =>
      attempts < a <= bound /\ Z.of_nat d = a
      /\ nonce = random (d - 1)
      /\ stamp = stampOf random endpoint timestamp context (d - 1)
      /\ CryptoUtils.hasLeadingZeros stamp difficulty = true
      /\ allMiss random endpoint timestamp context difficulty (d - 1)
  | Failed a d =>
      a = Z.max attempts bound /\ Z.of_nat d = a
      /\ allMiss random endpoint timestamp context difficulty d
  | Running => False
  end.
Proof.
  induction fuel as [|fuel IH]; intros attempts draws Hd Hfuel Hmiss;
    cbn [solveLoop generateNonce];
    destruct (Z.ltb_spec attempts bound) as [Hlt|Hge];
    try (repeat split; [lia | lia | exact Hmiss]).
  - lia.
  - fold (stampOf random endpoint timestamp context draws).
    destruct (CryptoUtils.hasLeadingZeros
                (stampOf random endpoint timestamp context draws)
                difficulty) eqn:Hz.
    + replace (S draws - 1)%nat with draws by lia.
      repeat split; try lia; assumption.
    + assert (Hmiss' : allMiss random endpoint timestamp context difficulty
                         (S draws)).
      { intros i Hi. destruct (Nat.eq_dec i draws) as [->|];
          [exact Hz | apply Hmiss; lia]. }
      specialize (IH (attempts + 1) (S draws) ltac:(lia) ltac:(lia) Hmiss').
      destruct (solveLoop _ _ _ _ _ _ _ _ _) as [nonce stamp a d|a d|];
        [| |exact IH].
      * destruct IH as (Ha & IH). split; [lia | exact IH].
      * destruct IH as (Ha & IH). split; [lia | exact IH].
Qed.

End SolvingLoop.

(** C9.  The solving loop always ends, after at most [maxRetries * 100]
    attempts (one nonce drawn per attempt).  Either it returns a nonce and a
    stamp, found at some attempt within the bound, where the stamp is the
    digest of [endpoint:timestamp:nonce:context] and meets the configured
    difficulty; or it fails after exactly [maxRetries * 100] attempts, all
    of them unsuccessful (no attempt at all when [maxRetries] is negative).
    [getHeaders] runs the loop once and passes the failure on to its
    caller. *)
Theorem generateValidPow_bounded (this : PowClient.t)
    (random : nat -> string) (endpoint timestamp context : string) :
  let bound := PowClient.maxRetriesOf (PowClient.config this) * 100 in
  let difficulty := JS.or_number (difficulty (PowClient.config this)) 4 in
  match PowClient.generateValidPow this random endpoint timestamp context with
  | PowClient.Found nonce stamp attempts draws =>
      1 <= attempts <= bound /\ Z.of_nat draws = attempts
      /\ nonce = random (draws - 1)%nat
      /\ stamp
         = CryptoUtils.sha256
             (endpoint ++ ":" ++ timestamp ++ ":" ++ nonce ++ ":" ++ context)
      /\ CryptoUtils.hasLeadingZeros stamp difficulty = true
      /\ Solver.allMiss random endpoint timestamp context difficulty
           (draws - 1)
  | PowClient.Failed attempts draws =>
      attempts = Z.max 0 bound /\ Z.of_nat draws = attempts
      /\ Solver.allMiss random endpoint timestamp context difficulty draws
      /\ forall dateNow userAgent,
           timestamp = JS.toString10 (dateNow / 1000) ->
           context = PowClient.generateContext this userAgent ->
           PowClient.getHeaders this random dateNow userAgent endpoint
           = Some (Throw ("Failed to generate valid PoW after "
                            ++ JS.toString10 attempts ++ " attempts"))
  | PowClient.Running => False
  end.
Proof.
  intros bound difficulty.
  pose proof (solveLoop_ends random endpoint timestamp context difficulty
                bound (Z.to_nat bound) 0 0 eq_refl ltac:(lia)) as H.
  assert (Hnone : Solver.allMiss random endpoint timestamp context
                    difficulty 0) by (intros i Hi; lia).
  specialize (H Hnone).
  assert (Hrun : PowClient.generateValidPow this random endpoint timestamp
                   context
                 = PowClient.solveLoop random endpoint timestamp context
                     difficulty bound (Z.to_nat bound) 0 0) by reflexivity.
  destruct (PowClient.generateValidPow this random endpoint timestamp
              context) as [nonce stamp a d|a d|] eqn:Hg;
    rewrite <- Hrun in H.
  - destruct H as (Ha & Hd & Hn & Hs & Hz & Hm).
    repeat split; try lia; try assumption.
    rewrite Hs, Hn. reflexivity.
  - destruct H as (Ha & Hd & Hm). repeat split; try assumption.
    intros dateNow userAgent -> ->. unfold PowClient.getHeaders.
    rewrite Hg. reflexivity.
  - exact H.
Qed.

(** The solver on the nonces n0, n1, n2, ...: for [/api/data] at second
    1700000000 with context [ctx] it finds n18 at its 19th attempt.  On a
    source that only ever delivers n0, which misses, it gives up after the
    100 attempts that [maxRetries = 1] allows. *)
Example solver_finds_n18 :
  PowClient.generateValidPow (Solver.client 5) Solver.counting
    "/api/data" "1700000000" "ctx"
  = PowClient.Found "n18" Sample.stamp18 19 19.
Proof. vm_compute. reflexivity. Qed.

Example solver_gives_up :
  PowClient.generateValidPow (Solver.client 1) (fun _ => "n0")
    "/api/data" "1700000000" "ctx"
  = PowClient.Failed 100 100.
Proof. vm_compute. reflexivity. Qed.

Lemma generateValidPow_bounded_witness :
  PowClient.getHeaders (Solver.client 1) (fun _ => "n0") Sample.t0 "unknown"
    "/api/data"
  = Some (Throw "Failed to generate valid PoW after 100 attempts").
Proof.
  pose proof (generateValidPow_bounded (Solver.client 1) (fun _ => "n0")
                "/api/data" (JS.toString10 (Sample.t0 / 1000))
                (PowClient.generateContext (Solver.client 1) "unknown"))
    as H.
  cbv zeta in H.
  assert (Hg : PowClient.generateValidPow (Solver.client 1) (fun _ => "n0")
                 "/api/data" (JS.toString10 (Sample.t0 / 1000))
                 (PowClient.generateContext (Solver.client 1) "unknown")
               = PowClient.Failed 100 100) by (vm_compute; reflexivity).
  rewrite Hg in H. destruct H as (_ & _ & _ & H).
  exact (H Sample.t0 "unknown" eq_refl eq_refl).
Defined.

(** ** More on the difficulty check *)

Section DifficultyMore.

Lemma to_nat_le_1 d : (Z.to_nat d <= 1)%nat <-> d <= 1.
Proof. lia. Qed.

(** On a character that is not a hexadecimal digit [parseInt] gives [NaN],
    and the nibble string is [0NaN]. *)
Lemma nibble_nonhex c :
  Spec.is_hex c = false -> CryptoUtils.nibble c = "0NaN".
Proof.
  destruct c as [[] [] [] [] [] [] [] []]; vm_compute; intro H;
    try discriminate H; reflexivity.
Qed.

(** X10.  A digest that meets a difficulty meets every lower one, and
    every string meets a difficulty of zero or less. *)
Theorem hasLeadingZeros_monotone (hash : string) (d d' : Z) :
  CryptoUtils.hasLeadingZeros hash d = true ->
  d' <= d ->
  CryptoUtils.hasLeadingZeros hash d' = true
  /\ (forall h z, z <= 0 -> CryptoUtils.hasLeadingZeros h z = true).
Proof.
  intros H Hle. split.
  - unfold CryptoUtils.hasLeadingZeros in *.
    rewrite zeros_from_spec in *. intros j Hj. apply H. lia.
  - intros h z Hz. unfold CryptoUtils.hasLeadingZeros.
    replace (Z.to_nat z) with 0%nat by lia. reflexivity.
Qed.

Lemma hasLeadingZeros_monotone_witness :
  CryptoUtils.hasLeadingZeros Sample.stamp18 4 = true.
Proof.
  refine (proj1 (hasLeadingZeros_monotone Sample.stamp18 7 4 _ _)).
  - vm_compute. reflexivity.
  - lia.
Defined.

(** X11.  A character that is not a hexadecimal digit counts as one zero
    bit followed by a bit that is not zero: a string that starts with such
    a character meets difficulty 1 and no difficulty above 1. *)
Theorem hasLeadingZeros_nonhex (c : ascii) (rest : string) (d : Z) :
  Spec.is_hex c = false ->
  CryptoUtils.hasLeadingZeros (String c rest) d = (d <=? 1).
Proof.
  intro Hc. unfold CryptoUtils.hasLeadingZeros.
  cbn [CryptoUtils.binary_of]. rewrite (nibble_nonhex c Hc).
  destruct (Z.leb_spec d 1) as [Hle|Hgt].
  - destruct (Z.to_nat d) as [|[|n]] eqn:Hn; [reflexivity | reflexivity | lia].
  - destruct (Z.to_nat d) as [|[|n]] eqn:Hn; [lia | lia | reflexivity].
Qed.

Lemma hasLeadingZeros_nonhex_witness :
  CryptoUtils.hasLeadingZeros "zz00" 1 = true
  /\ CryptoUtils.hasLeadingZeros "zz00" 2 = false.
Proof.
  split.
  - exact (hasLeadingZeros_nonhex "z" "z00" 1 eq_refl).
  - exact (hasLeadingZeros_nonhex "z" "z00" 2 eq_refl).
Defined.

End DifficultyMore.

(** ** The format of digests and signatures *)

Section DigestFormat.

Variable w : Z.
Variable nrounds : nat.
Variables (B0 B1 s0 s1 : Z * Z * Z).

Lemma round_length st kw :
  length (CryptoJS.round w B0 B1 st kw) = length st.
Proof.
  unfold CryptoJS.round.
  do 9 (destruct st as [|? st]; try reflexivity).
Qed.

Lemma rounds_length kws : forall st,
  length (fold_left (CryptoJS.round w B0 B1) kws st) = length st.
Proof.
  induction kws as [|kw kws IH]; intro st; cbn [fold_left];
    [reflexivity|]. rewrite IH. apply round_length.
Qed.

Lemma compress_length K hs block :
  length (CryptoJS.compress w nrounds B0 B1 s0 s1 K hs block) = length hs.
Proof.
  unfold CryptoJS.compress.
  rewrite length_map, length_combine, rounds_length. lia.
Qed.

Lemma compress_all_length K blocks : forall hs,
  length (fold_left (CryptoJS.compress w nrounds B0 B1 s0 s1 K) blocks hs)
  = length hs.
Proof.
  induction blocks as [|b blocks IH]; intro hs; cbn [fold_left];
    [reflexivity|]. rewrite IH. apply compress_length.
Qed.

Lemma be_bytes_length n x : length (CryptoJS.be_bytes n x) = n.
Proof. induction n as [|n IH]; simpl; [reflexivity | now rewrite IH]. Qed.

Lemma flat_map_length_const {A B} (f : A -> list B) n l :
  (forall x, length (f x) = n) ->
  length (flat_map f l) = (n * length l)%nat.
Proof.
  intro Hf. induction l as [|x l IH]; simpl; [lia|].
  rewrite length_app, Hf, IH. lia.
Qed.

(** A digest has as many bytes as the initial value has words, times the
    bytes of a word. *)
Lemma digest_length K H msg :
  length (CryptoJS.digest w nrounds B0 B1 s0 s1 K H msg)
  = (CryptoJS.wbytes w * length H)%nat.
Proof.
  unfold CryptoJS.digest.
  rewrite (flat_map_length_const _ (CryptoJS.wbytes w))
    by apply be_bytes_length.
  now rewrite compress_all_length.
Qed.


End DigestFormat.

Lemma hexdigit_is_hex n : Spec.is_hex (CryptoJS.hexdigit n) = true.
Proof.
  unfold CryptoJS.hexdigit.
  destruct (nth_in_or_default (Z.to_nat n)
              (list_ascii_of_string "0123456789abcdef") "0"%char) as [Hin | ->];
    [|reflexivity].
  revert Hin. generalize (nth (Z.to_nat n)
                            (list_ascii_of_string "0123456789abcdef")
                            "0"%char).
  intros c Hin. simpl in Hin.
  repeat (destruct Hin as [<-|Hin]; [reflexivity|]). destruct Hin.
Qed.

Lemma hex_of_bytes_format bs :
  String.length (CryptoJS.hex_of_bytes bs) = (2 * length bs)%nat
  /\ Spec.hex_digest (CryptoJS.hex_of_bytes bs) = true.
Proof.
  unfold CryptoJS.hex_of_bytes, Spec.hex_digest.
  rewrite list_ascii_of_string_of_list_ascii. split.
  - induction bs as [|b bs IH]; simpl; [reflexivity|]. rewrite IH. lia.
  - induction bs as [|b bs IH]; [reflexivity|].
    cbn [flat_map app forallb]. rewrite !hexdigit_is_hex. exact IH.
Qed.

Lemma sha256_format s :
  String.length (CryptoUtils.sha256 s) = 64%nat
  /\ Spec.hex_digest (CryptoUtils.sha256 s) = true.
Proof.
  unfold CryptoUtils.sha256, CryptoJS.SHA256.
  destruct (hex_of_bytes_format
              (CryptoJS.sha256_bytes (CryptoJS.bytes_of_string s)))
    as [Hl Hh].
  split; [|exact Hh]. rewrite Hl. unfold CryptoJS.sha256_bytes.
  rewrite digest_length. reflexivity.
Qed.


(** A stamp is never the empty string, nor is a signature. *)
Lemma sha256_nonempty data : CryptoUtils.sha256 data <> "".
Proof.
  intro H. pose proof (proj1 (sha256_format data)) as Hl.
  rewrite H in Hl. discriminate Hl.
Qed.



(** ** Protected endpoints *)

Section Endpoints.

Lemma endsWithStar_app q : JS.endsWithStar (q ++ "*") = true.
Proof.
  induction q as [|c q IH]; [reflexivity|].
  cbn [String.append JS.endsWithStar].
  destruct (q ++ "*")%string eqn:E; [destruct q; discriminate E | exact IH].
Qed.

Lemma dropLast_app q : JS.dropLast (q ++ "*") = q.
Proof.
  induction q as [|c q IH]; [reflexivity|].
  cbn [String.append JS.dropLast].
  destruct (q ++ "*")%string eqn:E; [destruct q; discriminate E|].
  now rewrite IH.
Qed.

Lemma endsWithStar_inv p :
  JS.endsWithStar p = true -> p = (JS.dropLast p ++ "*")%string.
Proof.
  induction p as [|c p IH]; [discriminate|].
  cbn [JS.endsWithStar JS.dropLast]. destruct p as [|c' p].
  - intro H. apply Ascii.eqb_eq in H. now subst c.
  - intro H. cbn [String.append]. f_equal. exact (IH H).
Qed.

Lemma prefix_iff q e :
  String.prefix q e = true <-> exists rest, e = (q ++ rest)%string.
Proof.
  revert e. induction q as [|c q IH]; intro e.
  - split; [intros _; now exists e | intros _; destruct e; reflexivity].
  - destruct e as [|c' e]; cbn [String.prefix String.append].
    + split; [discriminate | intros [rest H]; discriminate H].
    + destruct (Ascii.ascii_dec c c') as [->|Hne].
      * rewrite IH. split; intros [rest H]; exists rest; congruence.
      * split; [discriminate | intros [rest H]; congruence].
Qed.

Lemma matchesEndpoint_iff e p :
  matchesEndpoint e p = true <->
  e = p \/ exists q rest, p = (q ++ "*")%string /\ e = (q ++ rest)%string.
Proof.
  unfold matchesEndpoint, JS.startsWith.
  destruct (String.eqb_spec e p) as [->|Hne]; [split; auto|].
  destruct (JS.endsWithStar p) eqn:Hs.
  - rewrite prefix_iff. split.
    + intros [rest H]. right. exists (JS.dropLast p), rest.
      split; [now apply endsWithStar_inv | exact H].
    + intros [H|(q & rest & -> & ->)]; [congruence|].
      rewrite dropLast_app. now exists rest.
  - split; [discriminate|].
    intros [H|(q & rest & -> & _)]; [congruence|].
    rewrite endsWithStar_app in Hs. discriminate Hs.
Qed.

(** X1.  A path is protected exactly when the configured list has a
    pattern that equals it, or a pattern [q*] whose part before the final
    star is a prefix of it.  So [/api/*] protects [/api/] and everything
    below it but not [/api], a star elsewhere in a pattern is an ordinary
    character, and nothing is protected when the list is missing or
    empty. *)
Theorem isProtectedEndpoint_iff (cfg : PowShieldConfig) (e : string) :
  isProtectedEndpoint cfg e = true <->
  exists eps p,
    endpoints cfg = Some eps /\ In p eps
    /\ (e = p
        \/ exists q rest, p = (q ++ "*")%string /\ e = (q ++ rest)%string).
Proof.
  unfold isProtectedEndpoint. destruct (endpoints cfg) as [[|p0 eps]|].
  - split; [discriminate | intros (l & p & H & Hin & _)].
    injection H as <-. destruct Hin.
  - rewrite existsb_exists. split.
    + intros (p & Hin & Hm). exists (p0 :: eps), p.
      split; [reflexivity|]. split; [exact Hin|].
      now apply matchesEndpoint_iff.
    + intros (l & p & H & Hin & Hm). injection H as <-.
      exists p. split; [exact Hin | now apply matchesEndpoint_iff].
  - split; [discriminate | intros (l & p & H & _); discriminate H].
Qed.

Example isProtectedEndpoint_examples :
  let cfg := Sample.config in
  isProtectedEndpoint cfg "/api/data" = true
  /\ isProtectedEndpoint cfg "/api/data/" = false
  /\ isProtectedEndpoint cfg "/api/v2/" = true
  /\ isProtectedEndpoint cfg "/api/v2/users/7" = true
  /\ isProtectedEndpoint cfg "/api/v2" = false
  /\ isProtectedEndpoint cfg "/api/v2/*" = true
  /\ isProtectedEndpoint cfg "/public" = false.
Proof. vm_compute. repeat split; reflexivity. Qed.

End Endpoints.

(** ** What the edge validator answers, and what it leaves behind *)

Section EdgeAnswers.

Import PowCloudflare Edge.

(** X2.  The edge validator answers [null] or a response whose status is
    400, 403 or 429, and it answers 400 exactly when the endpoint is
    protected and one of the four proof fields is missing or empty. *)
Theorem handleRequest_statuses (this : t) (dateNow : Z) (request : Request) :
  let answer := fst (handleRequest this dateNow request) in
  (answer = None
   \/ rejected 400 answer \/ rejected 403 answer \/ rejected 429 answer)
  /\ (rejected 400 answer <->
      isProtectedEndpoint (config this) (pathname request) = true
      /\ JS.falsy (Headers.get (headers request) "X-Timestamp")
         || JS.falsy (Headers.get (headers request) "X-Nonce")
         || JS.falsy (Headers.get (headers request) "X-Context")
         || JS.falsy (Headers.get (headers request) "X-Stamp") = true).
Proof.
  cbv zeta. unfold handleRequest, reject, rejected.
  destruct (isProtectedEndpoint (config this) (pathname request));
    cbn [negb fst].
  2:{ split; [now left|]. split; [intros (r & H & _); discriminate H|].
      intros [H _]; discriminate H. }
  destruct (JS.falsy (Headers.get (headers request) "X-Timestamp")
            || JS.falsy (Headers.get (headers request) "X-Nonce")
            || JS.falsy (Headers.get (headers request) "X-Context")
            || JS.falsy (Headers.get (headers request) "X-Stamp")).
  { cbn [fst]. split; [right; left; eexists; split; reflexivity|].
    split; [now split | intros _; eexists; split; reflexivity]. }
  repeat match goal with
         | |- context [if ?b then (Some ?r, this) else _] =>
             destruct b;
             [cbn [fst]; split;
              [right; right; left; eexists; split; reflexivity|];
              split; [intros (r' & H & Hs); injection H as <-; discriminate Hs
                     | intros [_ H]; discriminate H]|]
         end.
  destruct (if rateLimitingOn (config this) then _ else _)
    as [[|] this2]; cbn [fst].
  - split; [right; right; right; eexists; split; reflexivity|].
    split; [intros (r' & H & Hs); injection H as <-; discriminate Hs
           | intros [_ H]; discriminate H].
  - split; [now left|].
    split; [intros (r' & H & _); discriminate H | intros [_ H]; discriminate H].
Qed.

(** X3.  Only an admission or a refusal by the rate limiter changes the
    instance: a request to an unprotected endpoint, or one answered with
    400 or 403, leaves the configuration and the cache as they were. *)
Theorem handleRequest_rejection_keeps_state (this : t) (dateNow : Z)
    (request : Request) :
  isProtectedEndpoint (config this) (pathname request) = false
  \/ rejected 400 (fst (handleRequest this dateNow request))
  \/ rejected 403 (fst (handleRequest this dateNow request)) ->
  snd (handleRequest this dateNow request) = this.
Proof.
  unfold handleRequest, reject, rejected.
  destruct (isProtectedEndpoint (config this) (pathname request));
    cbn [negb]; [|reflexivity].
  repeat match goal with
         | |- context [if ?b then (Some ?r, this) else _] =>
             destruct b; [reflexivity|]
         end.
  destruct (if rateLimitingOn (config this) then _ else _)
    as [[|] this2]; cbn [fst snd].
  - intros [H|[(r & H & Hs)|(r & H & Hs)]]; [discriminate H | |];
      injection H as <-; discriminate Hs.
  - intros [H|[(r & H & _)|(r & H & _)]]; discriminate H.
Qed.

Lemma handleRequest_rejection_keeps_state_witness :
  snd (handleRequest Sample.edge Sample.t0 Sample.unparsable) = Sample.edge.
Proof.
  apply handleRequest_rejection_keeps_state.
  right. right. eexists. split; vm_compute; reflexivity.
Defined.




(** X5.  Whatever the edge validator admits on a protected endpoint is a
    valid proof: the request carried the four fields, its timestamp parses
    and is not older than the tolerance, its nonce was not in the cache, and
    its stamp is the SHA-256 digest of [endpoint:timestamp:nonce:context],
    64 hexadecimal characters whose first [difficulty] bits are zero. *)
Theorem accepted_requests_are_valid this dateNow request this' :
  isProtectedEndpoint (config this) (pathname request) = true ->
  handleRequest this dateNow request = (None, this') ->
  exists ts nonce ctx stamp n,
    carries request ts nonce ctx stamp
    /\ JS.parseInt ts 10 = Some n
    /\ dateNow / 1000 - n <= toleranceOf (config this)
    /\ LRUCache.has (nonceCache this) (nonceKey ts nonce) dateNow = false
    /\ stamp = CryptoUtils.sha256
                 (pathname request ++ ":" ++ ts ++ ":" ++ nonce ++ ":" ++ ctx)
    /\ String.length stamp = 64%nat
    /\ Spec.hex_digest stamp = true
    /\ Spec.satisfies stamp (Z.to_nat (difficultyOf (config this))).
Proof.
  intros Hp H.
  destruct (handleRequest_null_inv _ _ _ _ Hp H)
    as (ts & nonce & ctx & stamp & _ & Hc & (n & Hn & Hfresh) & Hhas
        & Hsha & Hz).
  exists ts, nonce, ctx, stamp, n.
  pose proof (sha256_format
                (pathname request ++ ":" ++ ts ++ ":" ++ nonce ++ ":" ++ ctx))
    as [Hlen Hhex].
  rewrite Hsha in Hlen, Hhex.
  repeat split; try assumption; try apply Hc; [now symmetry|].
  destruct (Z.le_gt_cases 0 (difficultyOf (config this))) as [Hd|Hd].
  - apply (hasLeadingZeros_satisfies stamp _ Hhex).
    rewrite Z2Nat.id by exact Hd. exact Hz.
  - replace (Z.to_nat (difficultyOf (config this))) with 0%nat by lia.
    intros i Hi. lia.
Qed.

Lemma accepted_requests_are_valid_witness :
  exists ts nonce ctx stamp,
    carries Sample.valid18 ts nonce ctx stamp
    /\ Spec.satisfies stamp 4.
Proof.
  destruct (accepted_requests_are_valid Sample.edge Sample.t0 Sample.valid18
              (snd (handleRequest Sample.edge Sample.t0 Sample.valid18))
              eq_refl)
    as (ts & nonce & ctx & stamp & n & Hc & _ & _ & _ & _ & _ & _ & Hs).
  - vm_compute. reflexivity.
  - exists ts, nonce, ctx, stamp. split; [exact Hc | exact Hs].
Defined.

End EdgeAnswers.

(** ** Timestamps as text *)

Section TimestampText.

Lemma of_uint_acc_val d : forall acc,
  Zpos (Pos.of_uint_acc d acc) = uint_val d (Zpos acc).
Proof.
  induction d as [|l IH|l IH|l IH|l IH|l IH|l IH|l IH|l IH|l IH|l IH];
    intro acc; cbn [Pos.of_uint_acc uint_val]; [reflexivity|..];
    rewrite IH; f_equal; lia.
Qed.

Lemma of_uint_val d : Z.of_N (Pos.of_uint d) = uint_val d 0.
Proof.
  induction d as [|l IH|l IH|l IH|l IH|l IH|l IH|l IH|l IH|l IH|l IH];
    cbn [Pos.of_uint uint_val]; [reflexivity | exact IH |..];
    cbn [Z.of_N]; rewrite of_uint_acc_val; reflexivity.
Qed.

Lemma read_digits_some d : forall a,
  JS.read_digits 10 (NilEmpty.string_of_uint d) (Some a)
  = Some (uint_val d a).
Proof.
  induction d as [|l IH|l IH|l IH|l IH|l IH|l IH|l IH|l IH|l IH|l IH];
    intro a; [reflexivity|..];
    cbn [NilEmpty.string_of_uint JS.read_digits uint_val]; apply IH.
Qed.

Lemma read_digits_none d :
  d <> Decimal.Nil ->
  JS.read_digits 10 (NilEmpty.string_of_uint d) None = Some (uint_val d 0).
Proof.
  destruct d; [congruence|..]; intros _;
    cbn [NilEmpty.string_of_uint JS.read_digits uint_val];
    apply read_digits_some.
Qed.

Lemma strip_0x_decimal s : JS.strip_0x 10 s = s.
Proof.
  unfold JS.strip_0x. destruct s as [|a s']; [reflexivity|].
  destruct a as [[] [] [] [] [] [] [] []]; try reflexivity;
    destruct s'; reflexivity.
Qed.

(** A numeral starts with a digit: no white space and no sign is
    skipped. *)
Lemma parseInt_numeral d :
  d <> Decimal.Nil ->
  JS.parseInt (NilEmpty.string_of_uint d) 10 = Some (uint_val d 0)
  /\ JS.parseInt (String "-" (NilEmpty.string_of_uint d)) 10
     = Some (- uint_val d 0).
Proof.
  intro Hd. pose proof (read_digits_none d Hd) as Hr.
  unfold JS.parseInt. split.
  - replace (JS.strip_sign (JS.skip_white (NilEmpty.string_of_uint d)))
      with (1, NilEmpty.string_of_uint d)
      by (destruct d; [congruence|..]; reflexivity).
    cbv beta iota. rewrite strip_0x_decimal, Hr. f_equal; lia.
  - replace (JS.strip_sign (JS.skip_white
               (String "-" (NilEmpty.string_of_uint d))))
      with (-1, NilEmpty.string_of_uint d) by reflexivity.
    cbv beta iota. rewrite strip_0x_decimal, Hr. f_equal; lia.
Qed.

(** Reading back the decimal text of an integer gives the integer. *)
Lemma parseInt_toString10 n : JS.parseInt (JS.toString10 n) 10 = Some n.
Proof.
  destruct n as [|p|p]; [reflexivity|..]; cbn [JS.toString10];
    destruct (parseInt_numeral (Pos.to_uint p)
                (DecimalPos.Unsigned.to_uint_nonnil p)) as [Hpos Hneg];
    rewrite <- of_uint_val, DecimalPos.Unsigned.of_to in Hpos, Hneg;
    assumption.
Qed.

Lemma toString10_nonempty n : JS.toString10 n <> "".
Proof.
  destruct n as [|p|p]; cbn [JS.toString10]; try discriminate.
  pose proof (DecimalPos.Unsigned.to_uint_nonnil p) as H.
  destruct (Pos.to_uint p); [congruence|..]; discriminate.
Qed.

End TimestampText.

(** ** From the client to the edge, and from the edge to the origin *)

Section RoundTrips.

Import PowCloudflare Edge.



(** The solver's answer, read off [getHeaders]. *)
Lemma getHeaders_ok client random dateNow userAgent endpoint record :
  PowClient.getHeaders client random dateNow userAgent endpoint
  = Some (Ok record) ->
  exists nonce stamp attempts draws,
    PowClient.generateValidPow client random endpoint
      (JS.toString10 (dateNow / 1000))
      (PowClient.generateContext client userAgent)
    = PowClient.Found nonce stamp attempts draws
    /\ record
       = [("X-Timestamp", JS.toString10 (dateNow / 1000)); ("X-Nonce", nonce);
          ("X-Context", PowClient.generateContext client userAgent);
          ("X-Stamp", stamp)].
Proof.
  unfold PowClient.getHeaders.
  destruct (PowClient.generateValidPow _ _ _ _ _)
    as [nonce stamp a d|a d|]; intro H; [|discriminate H|discriminate H].
  injection H as <-. now exists nonce, stamp, a, d.
Qed.

(** X8.  What the client's [getHeaders] returns is a proof the edge
    validator accepts.  A request to the same endpoint that holds the
    returned headers passes every validation step of an edge validator
    that protects the endpoint, asks for no more difficulty than the
    client, sees a clock no further ahead of the client's than its
    tolerance and has not seen the nonce, provided the random nonce is not
    empty; the edge then answers [null], or 429 if the rate limiter
    refuses. *)
Theorem client_proof_passes_edge (client : PowClient.t)
    (random : nat -> string) (dateNow : Z) (userAgent endpoint : string)
    (record : list (string * string)) :
  (forall i, random i <> "") ->
  PowClient.getHeaders client random dateNow userAgent endpoint
  = Some (Ok record) ->
  exists ts nonce ctx stamp,
    record = [("X-Timestamp", ts); ("X-Nonce", nonce); ("X-Context", ctx);
              ("X-Stamp", stamp)]
    /\ forall (edge : PowCloudflare.t) (edgeNow : Z) (request : Request),
         pathname request = endpoint ->
         holds request record ->
         isProtectedEndpoint (config edge) endpoint = true ->
         difficultyOf (config edge)
           <= JS.or_number (difficulty (PowClient.config client)) 4 ->
         edgeNow / 1000 - dateNow / 1000 <= toleranceOf (config edge) ->
         LRUCache.has (nonceCache edge) (nonceKey ts nonce) edgeNow = false ->
         passes edge edgeNow request ts nonce ctx stamp
         /\ (fst (handleRequest edge edgeNow request) = None
             \/ rejected 429 (fst (handleRequest edge edgeNow request))).
Proof.
  intros Hrandom Hget.
  destruct (getHeaders_ok _ _ _ _ _ _ Hget)
    as (nonce & stamp & a & d & Hfound & ->).
  exists (JS.toString10 (dateNow / 1000)), nonce,
    (PowClient.generateContext client userAgent), stamp.
  split; [reflexivity|].
  intros edge edgeNow request Hpath Hholds Hp Hdiff Hclock Hhas.
  pose proof (solveLoop_ends random endpoint
                (JS.toString10 (dateNow / 1000))
                (PowClient.generateContext client userAgent)
                (JS.or_number (difficulty (PowClient.config client)) 4)
                (PowClient.maxRetriesOf (PowClient.config client) * 100)
                (Z.to_nat (PowClient.maxRetriesOf (PowClient.config client)
                           * 100)) 0 0 eq_refl ltac:(lia)
                ltac:(intros i Hi; lia)) as Hloop.
  unfold PowClient.generateValidPow in Hfound. rewrite Hfound in Hloop.
  destruct Hloop as (_ & _ & Hnonce & Hstamp & Hz & _).
  assert (Hpass : passes edge edgeNow request
                    (JS.toString10 (dateNow / 1000)) nonce
                    (PowClient.generateContext client userAgent) stamp).
  { split; [rewrite Hpath; exact Hp|]. split.
    - repeat split; try (apply Hholds; simpl; tauto).
      + apply toString10_nonempty.
      + rewrite Hnonce. apply Hrandom.
      + unfold PowClient.generateContext, CryptoUtils.generateContext.
        destruct (contextGenerator _) as [[| |]|]; apply sha256_nonempty.
      + rewrite Hstamp. apply sha256_nonempty.
    - split; [exists (dateNow / 1000);
              split; [apply parseInt_toString10 | exact Hclock]|].
      split; [exact Hhas|]. split.
      + rewrite Hpath, Hstamp, Hnonce. reflexivity.
      + unfold CryptoUtils.hasLeadingZeros in *.
        rewrite zeros_from_spec in *. intros j Hj. apply Hz. lia. }
  split; [exact Hpass|].
  rewrite (handleRequest_passes _ _ _ _ _ _ _ Hpass).
  destruct (if rateLimitingOn (config edge) then _ else _) as [[|] this2];
    [right; eexists; split; reflexivity | now left].
Qed.

Lemma client_proof_passes_edge_witness :
  let record :=
    recordOf (PowClient.getHeaders (Solver.client 5) Solver.counting
                Sample.t0 "unknown" "/api/data") in
  fst (handleRequest Sample.edge (Sample.t0 + 5000) (requestWith record))
  = None.
Proof.
  cbv zeta.
  destruct (client_proof_passes_edge (Solver.client 5) Solver.counting
              Sample.t0 "unknown" "/api/data"
              (recordOf (PowClient.getHeaders (Solver.client 5)
                           Solver.counting Sample.t0 "unknown" "/api/data")))
    as (ts & nonce & ctx & stamp & Hrec & H).
  - intro i. unfold Solver.counting. discriminate.
  - vm_compute. reflexivity.
  - assert (Hholds : holds
              (requestWith
                 (recordOf (PowClient.getHeaders (Solver.client 5)
                              Solver.counting Sample.t0 "unknown"
                              "/api/data")))
              (recordOf (PowClient.getHeaders (Solver.client 5)
                           Solver.counting Sample.t0 "unknown" "/api/data"))).
    { rewrite Hrec. intros name value Hin. unfold requestWith, Headers.get.
      cbn [headers map fst snd]. simpl in Hin.
      destruct Hin as [E|[E|[E|[E|[]]]]]; injection E as <- <-;
        vm_compute; reflexivity. }
    destruct (H Sample.edge (Sample.t0 + 5000)
                (requestWith
                   (recordOf (PowClient.getHeaders (Solver.client 5)
                                Solver.counting Sample.t0 "unknown"
                                "/api/data")))
                eq_refl Hholds eq_refl)
      as [_ [Hnull|(r & Hr & Hs)]].
    + vm_compute. discriminate.
    + vm_compute. discriminate.
    + reflexivity.
    + exact Hnull.
    + exfalso. revert Hr. vm_compute. discriminate.
Defined.

End RoundTrips.

(** ** The client's [fetch] and the origin's adapters *)

Section FetchAndAdapters.






(** X13.  The Fastify hook and the Koa middleware decide as the Express
    middleware does on the same headers, each on the string it matches the
    endpoints with: [request.url] for Fastify, [ctx.path] for Koa.  Koa
    records a refusal in [ctx.status] and [ctx.body] and does not call
    [next]; an admitted context is passed on untouched. *)
Theorem adapters_agree (this : PowServer.t) (target : string)
    (hs : list (string * string)) (st : option Z) (bd : option string) :
  let express :=
    PowServer.expressMiddleware this
      {| PowServer.path := target; PowServer.req_headers := hs |} in
  let ctx := {| Adapters.k_path := target; Adapters.k_headers := hs;
                Adapters.k_status := st; Adapters.k_body := bd |} in
  Adapters.fastifyHook this
    {| Adapters.f_url := target; Adapters.f_headers := hs |}
  = asHook express
  /\ Adapters.koaMiddleware this ctx = asKoa ctx express.
Proof.
  cbv zeta.
  unfold Adapters.fastifyHook, Adapters.koaMiddleware,
    PowServer.expressMiddleware.
  cbn [Adapters.f_url Adapters.f_headers Adapters.k_path Adapters.k_headers
       PowServer.path PowServer.req_headers].
  destruct (isProtectedEndpoint _ _); cbn [negb]; [|now split].
  destruct (JS.falsy (Headers.lookup "x-hmac" hs)).
  - destruct (PowServer.strictModeOn _); now split.
  - destruct (JS.falsy _ || JS.falsy _ || JS.falsy _); [now split|].
    destruct (negb _); now split.
Qed.

(** X14.  A path that is not protected is passed on untouched at every
    hop: the client calls [fetch] with the caller's own options and solves
    no puzzle, the edge validator answers [null] and keeps its state
    whatever the headers, and the origin adapters call [next]. *)
Theorem unprotected_path_bypasses (cfg : PowShieldConfig)
    (cache : LRUCache.t) (random : nat -> string) (dateNow edgeNow : Z)
    (userAgent : string) (options : ClientFetch.RequestInit)
    (request : Request) :
  isProtectedEndpoint cfg (pathname request) = false ->
  let edge := {| PowCloudflare.config := cfg;
                 PowCloudflare.nonceCache := cache |} in
  ClientFetch.fetch {| PowClient.config := cfg |} random dateNow userAgent
    (url request) (pathname request) options
  = Some (Ok (ClientFetch.callsFetch (url request) options))
  /\ Worker.fetch edge edgeNow request = (Worker.forward request, edge)
  /\ PowServer.expressMiddleware {| PowServer.config := cfg |}
       (Worker.atOrigin request) = PowServer.next
  /\ Adapters.fastifyHook {| PowServer.config := cfg |}
       {| Adapters.f_url := pathname request;
          Adapters.f_headers := headers request |} = Adapters.done.
Proof.
  intros Hp edge.
  unfold ClientFetch.fetch, Worker.fetch, PowCloudflare.handleRequest,
    PowServer.expressMiddleware, Adapters.fastifyHook.
  cbn [PowClient.config PowCloudflare.config PowServer.config edge
       Worker.atOrigin PowServer.path Adapters.f_url].
  rewrite Hp. cbn [negb]. repeat split.
Qed.

Lemma unprotected_path_bypasses_witness :
  Worker.fetch Sample.edge Sample.t0
    {| url := "https://example.com/public"; pathname := "/public";
       method := "GET"; headers := []; body := None; redirect := "follow" |}
  = (Worker.forward
       {| url := "https://example.com/public"; pathname := "/public";
          method := "GET"; headers := []; body := None;
          redirect := "follow" |}, Sample.edge).
Proof.
  exact (proj1 (proj2 (unprotected_path_bypasses Sample.config
                         (PowCloudflare.nonceCache Sample.edge)
                         (fun _ => "") 0 Sample.t0 ""
                         {| ClientFetch.init_method := None;
                            ClientFetch.init_headers := [];
                            ClientFetch.init_body := None;
                            ClientFetch.init_redirect := None |}
                         {| url := "https://example.com/public";
                            pathname := "/public"; method := "GET";
                            headers := []; body := None;
                            redirect := "follow" |} eq_refl))).
Defined.

End FetchAndAdapters.

(** ** Effective settings *)

(** X12.  What the components read from a merged configuration: a setting
    the user gave wins, a setting left out or given as 0 falls back to the
    default (difficulty 4, tolerance 30 s, cache size 10000, 30 requests
    per minute, 5 retries); rate limiting and strict mode are on unless
    the user turns them off, also when the user sets only another field of
    the same group; and merging a merged configuration changes nothing. *)
Theorem effective_settings (cfg : PowShieldConfig) :
  let m := Config.merge cfg in
  Edge.difficultyOf m = JS.or_number (difficulty cfg) 4
  /\ Edge.toleranceOf m = JS.or_number (timestampTolerance cfg) 30
  /\ Edge.cacheSizeOf m = JS.or_number (cacheSize cfg) 10000
  /\ PowCloudflare.requestsPerMinuteOf m
     = JS.or_number (match cloudflare cfg with
                     | Some cf => requestsPerMinute cf
                     | None => None
                     end) 30
  /\ PowClient.maxRetriesOf m
     = JS.or_number (match client cfg with
                     | Some cl => maxRetries cl
                     | None => None
                     end) 5
  /\ PowCloudflare.rateLimitingOn m
     = match cloudflare cfg with
       | Some {| rateLimiting := Some b |} => b
       | _ => true
       end
  /\ PowServer.strictModeOn m
     = match server cfg with
       | Some {| strictMode := Some b |} => b
       | _ => true
       end
  /\ endpoints m = endpoints cfg
  /\ secret m = secret cfg
  /\ Config.merge m = m.
Proof.
  destruct cfg as [eps sec dif tol cty csz cgen alg cl cf sv]. cbv zeta.
  unfold Edge.difficultyOf, Edge.toleranceOf, Edge.cacheSizeOf,
    PowCloudflare.requestsPerMinuteOf, PowClient.maxRetriesOf,
    PowCloudflare.rateLimitingOn, PowServer.strictModeOn.
  cbn [Config.merge difficulty timestampTolerance cacheSize cloudflare client
       server endpoints secret Config.DEFAULT_CONFIG].
  split; [destruct dif; reflexivity|].
  split; [destruct tol; reflexivity|].
  split; [destruct csz; reflexivity|].
  split; [destruct cf as [[rl [rpm|]]|]; reflexivity|].
  split; [destruct cl as [[[mr|] ri]|]; reflexivity|].
  split; [destruct cf as [[[rl|] rpm]|]; reflexivity|].
  split; [destruct sv as [[fw [sm|]]|]; reflexivity|].
  split; [destruct eps; reflexivity|].
  split; [destruct sec; reflexivity|].
  unfold Config.merge.
  cbn [difficulty timestampTolerance cacheSize cloudflare client server
       endpoints secret cacheType contextGenerator hmacAlgorithm
       Config.DEFAULT_CONFIG].
  f_equal;
    try (match goal with
         | |- Config.over (Config.over ?u _) _ = _ => destruct u; reflexivity
         end).
  - destruct cl as [[[mr|] [ri|]]|]; reflexivity.
  - destruct cf as [[[rl|] [rpm|]]|]; reflexivity.
  - destruct sv as [[[fw|] [sm|]]|]; reflexivity.
Qed.

(** ** What the store holds *)

Section StoreTyping.

Import PowCloudflare Edge.

Lemma find_In k es e : LRUCache.find k es = Some e -> In e es.
Proof.
  induction es as [|x es IH]; cbn [LRUCache.find]; [discriminate|].
  destruct (_ =? _)%string; [intro H; injection H as ->; now left|].
  intro H. right. now apply IH.
Qed.

Lemma Forall_remove (P : LRUCache.entry -> Prop) k es :
  Forall P es -> Forall P (LRUCache.remove k es).
Proof.
  induction 1 as [|x es Hx Hes IH]; cbn [LRUCache.remove]; [constructor|].
  destruct (_ =? _)%string; [assumption | now constructor].
Qed.

Lemma Forall_removelast (P : LRUCache.entry -> Prop) es :
  Forall P es -> Forall P (removelast es).
Proof.
  induction 1 as [|x es Hx Hes IH]; [constructor|].
  destruct es as [|y es]; [constructor|].
  change (removelast (x :: y :: es)) with (x :: removelast (y :: es)).
  now constructor.
Qed.

Lemma get_Forall (P : LRUCache.entry -> Prop) c k now :
  Forall P (LRUCache.entries c) ->
  Forall P (LRUCache.entries (snd (LRUCache.get c k now)))
  /\ forall v, fst (LRUCache.get c k now) = Some v ->
       exists e, P e /\ LRUCache.ekey e = k /\ LRUCache.evalue e = v.
Proof.
  intro HP. unfold LRUCache.get.
  destruct (LRUCache.find k (LRUCache.entries c)) as [e|] eqn:Hf.
  - pose proof (find_In _ _ _ Hf) as Hin.
    pose proof (proj1 (Forall_forall P _) HP e Hin) as He.
    destruct (LRUCache.isStale e now);
      cbn [fst snd LRUCache.entries LRUCache.with_entries].
    + split; [now apply Forall_remove | discriminate].
    + split; [constructor; [exact He | now apply Forall_remove]|].
      intros v H. injection H as <-. exists e.
      split; [exact He|]. split; [exact (find_key _ _ _ Hf) | reflexivity].
  - cbn [fst snd]. split; [exact HP | discriminate].
Qed.

Lemma set_Forall (P : LRUCache.entry -> Prop) c k v o now :
  Forall P (LRUCache.entries c) ->
  P {| LRUCache.ekey := k; LRUCache.evalue := v; LRUCache.estart := now;
       LRUCache.ettl := match o with
                        | Some x => x
                        | None => LRUCache.ttl c
                        end |} ->
  Forall P (LRUCache.entries (LRUCache.set c k v o now)).
Proof.
  intros HP He. unfold LRUCache.set.
  destruct (LRUCache.find k (LRUCache.entries c));
    [|destruct (_ =? _)];
    cbn [LRUCache.entries LRUCache.with_entries]; constructor;
    try exact He; try exact HP;
    [now apply Forall_remove | now apply Forall_removelast].
Qed.

Lemma isRateKey_rateKey ip : isRateKey (rateKey ip) = true.
Proof. apply prefix_iff. now exists ip. Qed.

Lemma isRateKey_nonceKey ts nonce n :
  JS.parseInt ts 10 = Some n -> isRateKey (nonceKey ts nonce) = false.
Proof.
  intro Hn. destruct (isRateKey (nonceKey ts nonce)) eqn:E; [|reflexivity].
  apply prefix_iff in E. destruct E as [rest E].
  exfalso. exact (nonceKey_not_rateKey ts nonce rest n Hn E).
Qed.

Lemma checkRateLimit_typed this now ip :
  storeTyped this -> storeTyped (snd (checkRateLimit this now ip)).
Proof.
  unfold storeTyped. intro HP. rewrite checkRateLimit_config.
  unfold checkRateLimit. fold (rateKey ip).
  destruct (get_Forall _ (nonceCache this) (rateKey ip) now HP)
    as [Hg Hv].
  pose proof (get_ttl (nonceCache this) (rateKey ip) now) as Httl.
  destruct (LRUCache.get (nonceCache this) (rateKey ip) now) as [got c1].
  cbn [fst snd] in *.
  destruct (Z.leb_spec (requestsPerMinuteOf (config this))
                       (to_number (or_zero got))) as [Hle|Hlt];
    cbn [snd nonceCache with_cache]; [now rewrite Httl|].
  rewrite set_ttl, Httl. apply set_Forall; [exact Hg|].
  unfold wellTyped. cbn [LRUCache.ekey LRUCache.evalue LRUCache.ettl].
  rewrite isRateKey_rateKey. eexists. split; [reflexivity|].
  split; [|reflexivity].
  destruct got as [v|]; cbn [or_zero to_number] in *; [|lia].
  destruct (Hv v eq_refl) as (e & He & Hk & Hval).
  unfold wellTyped in He. rewrite Hk, isRateKey_rateKey in He.
  destruct He as (m & Hm & Hrange & _). rewrite Hval in Hm. subst v.
  cbn [or_zero to_number] in *. lia.
Qed.

Lemma handleRequest_typed this dateNow request :
  storeTyped this -> storeTyped (snd (handleRequest this dateNow request)).
Proof.
  intro HP.
  destruct (isProtectedEndpoint (config this) (pathname request)) eqn:Hp;
    [|unfold handleRequest; rewrite Hp; exact HP].
  destruct (JS.falsy (Headers.get (headers request) "X-Timestamp")
            || JS.falsy (Headers.get (headers request) "X-Nonce")
            || JS.falsy (Headers.get (headers request) "X-Context")
            || JS.falsy (Headers.get (headers request) "X-Stamp")) eqn:Hf;
    [unfold handleRequest; rewrite Hp, Hf; exact HP|].
  destruct (carries_of_present _ Hf) as (ts & nonce & ctx & stamp & Hc).
  rewrite (handleRequest_steps _ _ _ _ _ _ _ Hp Hc). unfold reject.
  destruct (JS.parseInt ts 10) as [n|] eqn:Hn; [|exact HP].
  repeat match goal with
         | |- context [if ?b then (Some ?r, this) else _] =>
             destruct b; [exact HP|]
         end.
  assert (Hm : storeTyped (marked this dateNow ts nonce)).
  { unfold storeTyped, marked. cbn [config nonceCache with_cache].
    rewrite set_ttl. apply set_Forall; [exact HP|].
    unfold wellTyped. cbn [LRUCache.ekey LRUCache.evalue LRUCache.ettl].
    rewrite (isRateKey_nonceKey ts nonce n Hn). now split. }
  destruct (rateLimitingOn (config this)).
  - pose proof (checkRateLimit_typed (marked this dateNow ts nonce) dateNow
                  (clientIpOf request) Hm) as Hr.
    destruct (checkRateLimit _ _ _) as [[|] this2]; exact Hr.
  - exact Hm.
Qed.

Lemma run_typed trace : forall this,
  storeTyped this -> storeTyped (run this trace).
Proof.
  induction trace as [|[dateNow request] rest IH]; intros this HP;
    cbn [run]; [exact HP|].
  apply IH, handleRequest_typed, HP.
Qed.

(** X15.  In an edge validator built by the constructor, after any
    sequence of requests, every entry of the store under a key that starts
    with [rate:] is a counter between 1 and [requestsPerMinute] that lives
    60 seconds, and every other entry is a nonce marker [true] that lives
    for the timestamp tolerance: a counter never passes the ceiling, and
    the limiter never reads a nonce marker as a count. *)
Theorem store_entries_are_typed cfg this0 trace :
  constructor cfg = Ok this0 ->
  let this := run this0 trace in
  storeTyped this
  /\ (forall ip e,
      LRUCache.find (rateKey ip) (LRUCache.entries (nonceCache this))
      = Some e ->
      exists n, LRUCache.evalue e = LRUCache.VNum n
                /\ 1 <= n <= requestsPerMinuteOf (config this0)
                /\ LRUCache.ettl e = 60000)
  /\ (forall e, In e (LRUCache.entries (nonceCache this)) ->
      isRateKey (LRUCache.ekey e) = false ->
      LRUCache.evalue e = LRUCache.VTrue
      /\ LRUCache.ettl e = toleranceOf (config this0) * 1000).
Proof.
  intros Hnew this.
  destruct (constructor_consistent _ _ Hnew) as [Hc Hnil].
  assert (H0 : storeTyped this0) by (unfold storeTyped; rewrite Hnil;
                                     constructor).
  pose proof (run_typed trace this0 H0) as HP. fold this in HP.
  destruct (run_consistent trace this0 Hc) as [(_ & _ & Httl & _) Hcfg].
  fold this in Httl, Hcfg.
  split; [exact HP|]. unfold storeTyped in HP. rewrite Hcfg in HP. split.
  - intros ip e Hf.
    pose proof (proj1 (Forall_forall _ _) HP e (find_In _ _ _ Hf)) as He.
    unfold wellTyped in He.
    rewrite (find_key _ _ _ Hf), isRateKey_rateKey in He. exact He.
  - intros e Hin Hk.
    pose proof (proj1 (Forall_forall _ _) HP e Hin) as He.
    unfold wellTyped in He. rewrite Hk, Httl, Hcfg in He. exact He.
Qed.

Lemma store_entries_are_typed_witness :
  storeTyped
    (run (Sample.small 1)
       [(Sample.t0, Sample.valid18); (Sample.t0 + 1, Sample.valid31);
        (Sample.t0 + 2, Sample.valid44)]).
Proof.
  exact (proj1 (store_entries_are_typed (Sample.smallConfig 1)
                  (Sample.small 1)
                  [(Sample.t0, Sample.valid18);
                   (Sample.t0 + 1, Sample.valid31);
                   (Sample.t0 + 2, Sample.valid44)] eq_refl)).
Defined.

End StoreTyping.
